(* ===== verification/_CoqProject ===== *)
-Q . S2P
Prelude.v
JsString.v
Json.v
Storage.v
TodoModel.v
TodoList.v
TodoSpec.v
TodoView.v
App.v
