(* ===== verification/Prelude.v ===== *)
(** * A verification development of vue_todo_list (src/app.js)

    ** The program

    [src/app.js] is a single-page Vue 3 to-do list.  It declares
    - [TodoItem] (lines 2-15): a child component that renders one task and
      emits [toggle-todo] / [delete-todo] with the task's id;
    - [TodoList] (lines 18-139): the page component.  [data()] hydrates the
      task array from [localStorage['todos']] through [JSON.parse]; the
      computed properties [filteredTodos], [activeTodoCount] and
      [completedTodoCount] are views of that array; the methods [addTodo],
      [toggleTodo], [deleteTodo], [clearCompleted] and [setFilter] change the
      state, and all but [setFilter] write the array back through
      [saveTodos] ([JSON.stringify] then [localStorage.setItem]); its
      template renders the input, the filter bar and the list;
    - the router and the application bootstrap (lines 142-156).
    The parts interact through Vue events (child to parent), through the
    reactive state of [TodoList] (template reads), and through one shared
    external resource, the [localStorage] key ['todos'].

    ** Files, in dependency order
    - [Prelude] (this file): the [todo_scope] scope, the [todo] hint
      database, the tactics [case_bool] and [decide_by_eval], and lemmas
      on [List.filter], [drop_while], [take_while] and sorted lists that
      the components share.
    - [JsString]: strings as lists of UTF-16 code units ([jsstr]);
      [String.prototype.trim] with the ECMAScript WhiteSpace and
      LineTerminator sets ([trim], called at line 49); string truthiness
      ([truthy]) and [||] ([or_else], line 24).
    - [Json]: JSON values ([jvalue]), [JSON.stringify] ([stringify], with
      QuoteJSONString and well-formed escapes of lone surrogates) and
      [JSON.parse] ([JSON_parse], a recursive-descent parser with fuel).
    - [Storage]: [localStorage] as the class [WebStorage] ([getItem],
      a fallible [setItem]) with its laws [WebStorageLaws], and the instance
      [local_storage], a [gmap] with a quota.
    - [TodoModel]: the task record of [addTodo] ([todo]), its JSON form
      ([encode_todos], [serialize_todos]) and [data()]'s hydration
      ([hydrate]).
    - [TodoList]: the state of [TodoList] ([state], with the storage area
      as a field), [data], every method as a function
      [state -> state * outcome] (a throw keeps the mutations made before
      it), the computed properties, and [handle], the dispatch of a call.
    - [TodoSpec]: the abstract store of the specification (Module
      [Abstract], a [gmap] from ids to text and flag) and the reading [abs]
      of the array as such a store.
    - [TodoView]: the templates ([render_item], [render]), the user events
      ([ui_event], [ui_dispatch]), page sessions as the step relation
      [reach], and sequences of events ([run]).
    - [App]: the shell of lines 141-156: the route table [routes], the
      hash history's location ([hash_location]), the router's path parsing
      and matching ([url_path], [route_matches], [router_resolve]), and
      [app_mount], the initial render of [<router-view>] that runs
      [TodoList]'s [data()] on the storage, and [hashchange], navigation.

    ** Theorems
    - Persistence: [JSON_parse_stringify] (the JSON round trip),
      [hydrate_save] (what [saveTodos] writes hydrates to the same list),
      [handle_synced] (storage stays in sync across every method that
      returns), [addTodo_quota_desync] (what a [QuotaExceededError] in a
      save does), [data_parse_error] and
      [data_missing_storage] (mounting), [handle_writes] (which calls
      write the storage and which leave it alone).
    - Methods: the behaviour of [addTodo], [toggleTodo], [deleteTodo] and
      [clearCompleted] on every branch, and a sequence of additions typed
      on the page ([run_add_events]).
    - Invariants: unique ids under a
      strictly increasing clock ([handle_ids_unique]) and their failure
      when two additions fall in one millisecond
      ([addTodo_same_ms_duplicates]), insertion order ([handle_preserves_order]),
      and the invariant of every reachable page state ([reach_invariant]),
      by rule induction: representable tasks, distinct ids, and storage in
      sync while no handler threw, under the environment's conditions on
      each event ([event_ok]: typed text is code units, [Date.now()] is a
      time value ahead of every id).
    - Refinement: [handle_refines], every method simulated by one step of
      the abstract store; [filteredTodos_refines].
    - Page: [render_consistent], [render_unknown_filter],
      [counters_match_filters] (each button's counter is the length of the
      list it shows), and what a click on an item's toggle button does with
      unique and with shared ids.
    - Liveness: from every reachable state a sequence of clicks empties the
      list ([reach_can_empty]).
    - Shell: which hashes show the task list ([app_mount_routes]), that
      the initial render starts a page session ([app_mount_session]), and
      that navigating away and back remounts the page from the storage
      ([hashchange_away_back]).
    - Sequences: typed additions append in order ([run_add_events]) and
      keep ids distinct under an increasing clock ([run_add_events_ids]).
    - Platform: [trim] equals an index-scanning reference implementation
      ([trim_ref_equiv]); the printed length of an integer is its decimal
      length ([N_to_jsstr_length]).
    Every theorem with hypotheses is followed by an instance on a concrete
    page ([..._witness]) evaluated by [vm_compute].

    ** Fuel and bounds
    - [digits] peels decimal digits with fuel [N.size n], the number of
      bits, which is at least the number of digits ([digits_spec]).
    - [JSON_parse] runs the parser with fuel [2 * length text + 1]: each
      nesting level and each element consumes input, and
      [parse_fuel_adequate] proves that no larger fuel changes the result,
      so running out of fuel never decides the outcome.
    - Ids are [Date.now()] values, ECMAScript time values of magnitude at
      most 8.64e15 ([time_value_ok]); these are safe integers (below
      2^53), so the doubles holding them are exact and [JSON.stringify]
      prints their integer digits.  Texts are strings of code units below
      2^16.

    ** Not modelled
    - The parts of vue-router the program does not exercise: the router
      is modelled as far as its one record ['/'] needs (no dynamic
      segments, no redirects, no guards), with the hash history's reading
      of [location.hash]; the HTML5 history and scroll behaviour are not
      used.  [Date.now()] is a platform clock: it is an argument of
      [addTodo], constrained to time values, and its ordering is a
      hypothesis where a theorem needs it.
    - Vue's reactivity and rendering engine, a library the program only
      calls: re-rendering is [render] applied to the state after each
      event, and the registration [components: { TodoItem }] (lines 19-21)
      is the use of [render_item] inside [render].  Input method
      composition (v-model does not update [newTodo] while an IME
      composes) is not modelled: [UiInput] is the value after it.
    - Static markup (headings, placeholders, CSS classes other than
      [active] and [completed]).
    - Numbers with a fraction or an exponent in [JSON.stringify]: the
      program only stores integers; the parser reads them as exact
      decimals, without rounding to doubles.
    - What the page does with stored JSON that is valid but not an array
      of tasks ([MountForeign]). *)

From stdpp Require Export base list gmap strings.
From Stdlib Require Export ZArith Sorting.Sorted.

Declare Scope todo_scope.
Delimit Scope todo_scope with todo.

(** The development's automation: lemmas of this file and of the
    components register themselves here. *)
Create HintDb todo discriminated.
Create Rewrite HintDb todo_rw.

(** [drop_while p l] drops the longest prefix of [l] whose elements satisfy
    [p]: the loop of [TrimString] in ECMAScript.  It is structural. *)
Fixpoint drop_while {A} (p : A → bool) (l : list A) : list A :=
  match l with
  | [] => []
  | x :: l' => if p x then drop_while p l' else l
  end.

(** [take_while p l] is the longest prefix of [l] whose elements satisfy
    [p]: a scan up to the first element that fails [p]. *)
Fixpoint take_while {A} (p : A → bool) (l : list A) : list A :=
  match l with
  | [] => []
  | x :: l' => if p x then x :: take_while p l' else []
  end.

(** [Array.prototype.filter] with a boolean callback is Stdlib's
    [List.filter]; a few facts about it that the components share. *)
Section filter_lemmas.
Context {A : Type}.
Implicit Types (p q : A → bool) (l : list A).

Lemma filter_filter_and p q l :
  List.filter p (List.filter q l) = List.filter (λ x, q x && p x) l.
Proof.
  induction l as [|x l IH]; simpl; [done|].
  destruct (q x); simpl; [destruct (p x); simpl|]; congruence.
Qed.

Lemma filter_idem p l : List.filter p (List.filter p l) = List.filter p l.
Proof.
  rewrite filter_filter_and. apply filter_ext. intros x. by destruct (p x).
Qed.

Lemma filter_all_false p l :
  (∀ x, In x l → p x = false) → List.filter p l = [].
Proof.
  induction l as [|x l IH]; intros H; simpl; [done|].
  rewrite H by (left; done). apply IH. intros y Hy. apply H. by right.
Qed.

Lemma filter_sublist p l : sublist (List.filter p l) l.
Proof.
  induction l as [|x l IH]; simpl; [constructor|].
  destruct (p x); [by apply sublist_skip | by apply sublist_cons].
Qed.

Lemma In_filter_iff p l x : In x (List.filter p l) ↔ In x l ∧ p x = true.
Proof. apply filter_In. Qed.

Lemma filter_length_le' p l : length (List.filter p l) ≤ length l.
Proof. apply filter_length_le. Qed.
End filter_lemmas.

Lemma Forall_forallb_iff {A} (f : A → bool) (l : list A) :
  Forall (λ x, f x = true) l ↔ forallb f l = true.
Proof. induction l as [|x l IH]; simpl; [split; done|]. by rewrite Forall_cons, andb_true_iff, IH. Qed.

Lemma Forall_list_filter {A} (P : A → Prop) (p : A → bool) (l : list A) :
  Forall P l → Forall P (List.filter p l).
Proof. induction 1 as [|x l Hx _ IH]; simpl; [constructor|]. destruct (p x); [by constructor|done]. Qed.

Lemma map_filter_sublist {A B} (f : A → B) (p : A → bool) (l : list A) :
  map f (List.filter p l) `sublist_of` map f l.
Proof.
  induction l as [|x l IH]; simpl; [constructor|].
  destruct (p x); simpl; [by apply sublist_skip|by apply sublist_cons].
Qed.

(** A list strongly sorted by an irreflexive relation on an image has
    distinct images. *)
Lemma StronglySorted_map_NoDup {A B} (f : A → B) (R : relation B) `{!Irreflexive R} (l : list A) :
  StronglySorted (λ x y, R (f x) (f y)) l → NoDup (map f l).
Proof.
  induction 1 as [|x l _ IH Hx]; simpl; constructor; [|done].
  intros (y & Hy & Hin)%list_elem_of_In%in_map_iff.
  apply (irreflexivity R (f x)). rewrite <- Hy at 2.
  rewrite Forall_forall in Hx. by apply Hx, list_elem_of_In.
Qed.

#[export] Hint Rewrite @filter_idem : todo_rw.
#[export] Hint Resolve Forall_list_filter : todo.
#[export] Hint Resolve filter_sublist filter_length_le' : todo.

Section drop_while_lemmas.
Context {A : Type} (p : A → bool).
Implicit Types l : list A.

Lemma drop_while_idem l : drop_while p (drop_while p l) = drop_while p l.
Proof.
  induction l as [|x l IH]; simpl; [done|].
  destruct (p x) eqn:E; [done|]. simpl. by rewrite E.
Qed.

Lemma drop_while_suffix l : drop_while p l `suffix_of` l.
Proof.
  induction l as [|x l IH]; simpl; [done|].
  destruct (p x); [|done]. by apply suffix_cons_r.
Qed.

Lemma drop_while_head l x l' : drop_while p l = x :: l' → p x = false.
Proof.
  induction l as [|y l IH]; simpl; [done|].
  destruct (p y) eqn:E; [done|]. by intros [= -> ->].
Qed.

Lemma drop_while_nil_iff l : drop_while p l = [] ↔ Forall (λ x, p x = true) l.
Proof.
  induction l as [|x l IH]; simpl.
  - split; [constructor|done].
  - rewrite Forall_cons. destruct (p x) eqn:E; [rewrite IH; naive_solver|].
    split; [done|]. by intros [? _].
Qed.

Lemma Forall_drop_while l :
  Forall (λ x, p x = true) (drop_while p l) ↔ Forall (λ x, p x = true) l.
Proof.
  split; intros H.
  - apply drop_while_nil_iff. destruct (drop_while p l) as [|x l'] eqn:E; [done|].
    apply Forall_cons in H as [Hx _]. by rewrite (drop_while_head l x l' E) in Hx.
  - by rewrite (proj2 (drop_while_nil_iff l) H).
Qed.

Lemma drop_while_id l :
  (∀ x l', l = x :: l' → p x = false) → drop_while p l = l.
Proof. destruct l as [|x l]; simpl; [done|]. intros H. by rewrite (H x l). Qed.

Lemma drop_while_app_l l1 l2 :
  Forall (λ x, p x = true) l1 → drop_while p (l1 ++ l2) = drop_while p l2.
Proof. induction 1 as [|x l1 Hx _ IH']; simpl; [done|]. by rewrite Hx. Qed.
Lemma drop_while_app_r l1 l2 :
  (∃ x, x ∈ l1 ∧ p x = false) → drop_while p (l1 ++ l2) = drop_while p l1 ++ l2.
Proof.
  induction l1 as [|x l1 IH]; simpl; intros (y & Hy & Hp); [by apply elem_of_nil in Hy|].
  destruct (p x) eqn:E; [|done]. apply IH.
  apply elem_of_cons in Hy as [->|Hy]; [congruence|eauto].
Qed.
End drop_while_lemmas.

#[export] Hint Rewrite @drop_while_idem : todo_rw.
#[export] Hint Resolve drop_while_suffix : todo.

(** Case analysis on the boolean tests of a goal, keeping the equations. *)
Ltac case_bool :=
  match goal with
  | |- context [if ?b then _ else _] =>
      lazymatch b with
      | bool_decide _ => case_bool_decide
      | _ => let E := fresh "E" in destruct b eqn:E
      end
  end.

(** A decidable side condition on concrete data, by evaluation. *)
Ltac decide_by_eval := apply (bool_decide_unpack _); vm_compute; reflexivity.
