(* ===== verification/JsString.v ===== *)
(** JavaScript strings, as [src/app.js] uses them.

    A JavaScript string is a finite sequence of UTF-16 code units; a code
    unit is modelled as an [N] below 2^16 ([code_unit_ok]).  The program
    uses three string operations of the platform:
    - [this.newTodo.trim()] in [addTodo] (app.js line 49):
      [String.prototype.trim], i.e. ECMAScript's TrimString, which removes
      the leading and trailing code points that are WhiteSpace or
      LineTerminator.  No whitespace code point is a surrogate, so working
      on code units is the same as working on code points.
    - the truthiness of a string in [if (...)] (line 49) and in
      [localStorage.getItem('todos') || '[]'] (line 24): the empty string
      is the only falsy string, and [null] is falsy.
    Theorems: [trim] is empty exactly on all-whitespace strings, and
    equals [trim_ref], the implementation by two index scans
    (first and last code unit that is not white space) and a substring. *)

From S2P Require Import Prelude.

(** A JavaScript string: its UTF-16 code units. *)
Abbreviation jsstr := (list N).

Definition code_unit_ok (c : N) : bool := bool_decide (c < 65536)%N.

Definition jsstr_ok (s : jsstr) : Prop := Forall (λ c, code_unit_ok c = true) s.

(** ASCII literals of the source, as code units. *)
Definition js (s : string) : jsstr := map (λ a, Ascii.N_of_ascii a) (String.list_ascii_of_string s).

(** ECMAScript WhiteSpace: TAB, VT, FF, ZWNBSP and the Zs category
    (SPACE, NBSP, OGHAM SPACE MARK, U+2000..U+200A, NNBSP, MMSP, IDEOGRAPHIC
    SPACE). *)
Definition is_WhiteSpace (c : N) : bool :=
  bool_decide (c = 0x9 ∨ c = 0xB ∨ c = 0xC ∨ c = 0xFEFF ∨ c = 0x20 ∨ c = 0xA0
               ∨ c = 0x1680 ∨ (0x2000 ≤ c ≤ 0x200A) ∨ c = 0x202F ∨ c = 0x205F
               ∨ c = 0x3000)%N.

(** ECMAScript LineTerminator: LF, CR, LINE SEPARATOR, PARAGRAPH SEPARATOR. *)
Definition is_LineTerminator (c : N) : bool :=
  bool_decide (c = 0xA ∨ c = 0xD ∨ c = 0x2028 ∨ c = 0x2029)%N.

Definition is_trim_space (c : N) : bool := is_WhiteSpace c || is_LineTerminator c.

(** TrimString(S, start) and TrimString(S, end). *)
Definition trimStart (s : jsstr) : jsstr := drop_while is_trim_space s.
Definition trimEnd (s : jsstr) : jsstr := reverse (drop_while is_trim_space (reverse s)).

(** [String.prototype.trim]: TrimString(S, start+end). *)
Definition trim (s : jsstr) : jsstr := trimEnd (trimStart s).

(** ToBoolean on a string: only the empty string is falsy. *)
Definition truthy (s : jsstr) : bool :=
  match s with [] => false | _ => true end.

(** [a || b] where [a : string | null] and [b : string]: [a] when it is
    truthy, [b] otherwise ([null] and [''] are falsy). *)
Definition or_else (a : option jsstr) (b : jsstr) : jsstr :=
  match a with
  | Some s => if truthy s then s else b
  | None => b
  end.

(** A reference implementation of TrimString by positions, as engines
    write it: scan from the left for the first code unit that is not white
    space, from the right for the last one, and take the substring
    between them.  [scan_left s i f] is the first position from [i] that
    is not white space (or the end); [scan_right s j f] is the end of the
    substring, the position after the last code unit before [j] that is not
    white space (or 0).  The fuel [length s] bounds both loops. *)
Fixpoint scan_left (s : jsstr) (i fuel : nat) : nat :=
  match fuel with
  | O => i
  | S f => match s !! i with
           | Some c => if is_trim_space c then scan_left s (S i) f else i
           | None => i
           end
  end.

Fixpoint scan_right (s : jsstr) (j fuel : nat) : nat :=
  match fuel, j with
  | O, _ | _, O => j
  | S f, S j' => match s !! j' with
                 | Some c => if is_trim_space c then scan_right s j' f else j
                 | None => j
                 end
  end.

Definition trim_ref (s : jsstr) : jsstr :=
  let i := scan_left s 0 (length s) in
  let j := scan_right s (length s) (length s) in
  take (j - i) (drop i s).

(** * Theorems on [trim] *)

Lemma trimEnd_nil_iff s : trimEnd s = [] ↔ Forall (λ c, is_trim_space c = true) s.
Proof.
  unfold trimEnd. rewrite <- (reverse_involutive s) at 2.
  rewrite Forall_reverse, <- drop_while_nil_iff.
  split; intros H; [|by rewrite H].
  apply (f_equal reverse) in H. by rewrite reverse_involutive in H.
Qed.

Lemma trimStart_head s c s' : trimStart s = c :: s' → is_trim_space c = false.
Proof. apply drop_while_head. Qed.

Lemma trim_nil_iff s : trim s = [] ↔ Forall (λ c, is_trim_space c = true) s.
Proof. unfold trim, trimStart. rewrite trimEnd_nil_iff. apply Forall_drop_while. Qed.

(** ** The reference implementation *)

Lemma scan_left_spec s i f :
  (length s ≤ i + f)%nat → drop (scan_left s i f) s = trimStart (drop i s).
Proof.
  unfold trimStart. revert i. induction f as [|f IH]; intros i Hf; simpl.
  { rewrite drop_ge by lia. done. }
  destruct (s !! i) as [c|] eqn:Hc.
  - rewrite (drop_S s c i Hc). simpl. destruct (is_trim_space c); [apply IH; lia|by rewrite (drop_S s c i Hc)].
  - apply lookup_ge_None in Hc. by rewrite drop_ge.
Qed.

Lemma scan_right_spec s j f :
  (j ≤ length s)%nat → (j ≤ f)%nat → take (scan_right s j f) s = trimEnd (take j s).
Proof.
  unfold trimEnd. revert j. induction f as [|f IH]; intros j Hj Hf.
  { assert (j = 0%nat) as -> by lia. done. }
  destruct j as [|j]; [done|]. simpl.
  destruct (s !! j) as [c|] eqn:Hc; [|apply lookup_ge_None in Hc; lia].
  rewrite (take_S_r s j c Hc), reverse_snoc. simpl.
  destruct (is_trim_space c); [apply IH; lia|].
  by rewrite reverse_cons, reverse_involutive, (take_S_r s j c Hc).
Qed.

Lemma trimEnd_app_l a b :
  (∃ c, c ∈ b ∧ is_trim_space c = false) → trimEnd (a ++ b) = a ++ trimEnd b.
Proof.
  intros (c & Hc & Hsp). unfold trimEnd. rewrite reverse_app, drop_while_app_r.
  - by rewrite reverse_app, reverse_involutive.
  - exists c. by rewrite elem_of_reverse.
Qed.

(** C30: equivalence with the reference implementation: the trim of the
    model (drop the leading white space, then the trailing) is the
    substring between the two index scans, on every string. *)
Theorem trim_ref_equiv s : trim s = trim_ref s.
Proof.
  unfold trim_ref, trim.
  set (i := scan_left s 0 (length s)). set (j := scan_right s (length s) (length s)).
  assert (Hi : drop i s = trimStart s) by (subst i; rewrite scan_left_spec; [by rewrite drop_0|lia]).
  assert (Hj : take j s = trimEnd s) by (subst j; rewrite scan_right_spec, take_ge; done || lia).
  rewrite Hi. destruct (trimStart s) as [|c b] eqn:Hb; [by rewrite take_nil|].
  assert (Hlen : (i ≤ length s)%nat).
  { destruct (decide (i ≤ length s)%nat); [done|]. rewrite drop_ge in Hi by lia. done. }
  assert (Hj2 : take j s = take i s ++ trimEnd (c :: b)).
  { rewrite Hj. rewrite <- (take_drop i s) at 1. rewrite Hi, trimEnd_app_l; [done|].
    exists c. split; [apply elem_of_cons; by left|eapply trimStart_head, Hb]. }
  assert (Hij : (i ≤ j)%nat).
  { apply (f_equal length) in Hj2. rewrite length_app, !length_take in Hj2. lia. }
  rewrite <- Hi, take_drop_commute, Nat.add_sub_assoc, Nat.add_comm, Nat.add_sub by lia.
  rewrite Hj2, drop_app_length'; [by rewrite Hi|]. rewrite length_take. lia.
Qed.
