(* ===== verification/Json.v ===== *)
(** JSON, as the program uses it: [JSON.stringify(this.todos)] in
    [saveTodos] (app.js line 79) and [JSON.parse(...)] in [data()] (line 24).

    Both are ECMAScript built-ins; they are modelled from the ECMAScript
    definitions (SerializeJSONProperty / QuoteJSONString and the JSON
    grammar of ECMA-404 that [JSON.parse] accepts), without [replacer],
    [space] or [reviver], which the program does not pass.

    Values.  A JSON number is kept as the exact decimal [m * 10^e] of its
    literal, normalised by [mk_number] so that an integer always has [e = 0]
    and a non-integer has a mantissa that is not a multiple of 10; equal
    numbers therefore have equal representations.  Rounding to an IEEE
    double is not modelled: the round-trip theorems are stated for safe
    integers ([|m| < 2^53]), where a double is exact, and those are the only
    numbers the program writes (task ids, see [TodoModel]).

    Printing.  [stringify] follows SerializeJSONProperty for null, booleans,
    strings, arrays and objects exactly; a number with [e = 0] prints as
    Number::toString prints an integer below 10^21 (its decimal digits).  A
    non-integer is printed as [m] "e" [e], a literal of the same value but
    not the spelling of Number::toString; the program never stores one.

    Theorems: the hexadecimal and decimal printers are inverted by the
    parser's scanners, [QuoteJSONString] is inverted by the string scanner
    for every string of code units, [JSON.parse (JSON.stringify v) = v]
    for every well-formed value, the fuel of [JSON_parse] is adequate
    (by induction on the fuel over the three mutually recursive parsers),
    and an integer prints in exactly its decimal length
    ([N_to_jsstr_length]). *)

From S2P Require Import Prelude JsString.

Local Open Scope N_scope.

Inductive jvalue : Type :=
| JNull
| JBool (b : bool)
| JNumber (m : Z) (e : Z)
| JString (s : jsstr)
| JArray (vs : list jvalue)
| JObject (fields : list (jsstr * jvalue)).

(** Induction on values, with hypotheses on every element of an array and
    every member value of an object. *)
Section jvalue_ind'.
Variable P : jvalue → Prop.
Hypothesis HNull : P JNull.
Hypothesis HBool : ∀ b, P (JBool b).
Hypothesis HNumber : ∀ m e, P (JNumber m e).
Hypothesis HString : ∀ s, P (JString s).
Hypothesis HArray : ∀ vs, Forall P vs → P (JArray vs).
Hypothesis HObject : ∀ fs, Forall (λ kv, P kv.2) fs → P (JObject fs).

Fixpoint jvalue_ind' (v : jvalue) : P v :=
  match v with
  | JNull => HNull
  | JBool b => HBool b
  | JNumber m e => HNumber m e
  | JString s => HString s
  | JArray vs =>
      HArray vs ((fix go (l : list jvalue) : Forall P l :=
                    match l with
                    | [] => Forall_nil_2 _
                    | w :: l' => Forall_cons_2 _ _ _ (jvalue_ind' w) (go l')
                    end) vs)
  | JObject fs =>
      HObject fs ((fix go (l : list (jsstr * jvalue)) : Forall (λ kv, P kv.2) l :=
                     match l with
                     | [] => Forall_nil_2 _
                     | kv :: l' => Forall_cons_2 _ _ _ (jvalue_ind' kv.2) (go l')
                     end) fs)
  end.
End jvalue_ind'.

(** ** Characters the printer and the parser use *)
Definition ch_quote : N := 0x22.
Definition ch_backslash : N := 0x5C.
Definition ch_comma : N := 0x2C.
Definition ch_colon : N := 0x3A.
Definition ch_lbracket : N := 0x5B.
Definition ch_rbracket : N := 0x5D.
Definition ch_lbrace : N := 0x7B.
Definition ch_rbrace : N := 0x7D.
Definition ch_minus : N := 0x2D.
Definition ch_plus : N := 0x2B.
Definition ch_dot : N := 0x2E.
Definition ch_0 : N := 0x30.
Definition ch_u : N := 0x75.

Definition is_digit (c : N) : bool := bool_decide (0x30 ≤ c ≤ 0x39)%N.
Definition is_high_surrogate (c : N) : bool := bool_decide (0xD800 ≤ c ≤ 0xDBFF)%N.
Definition is_low_surrogate (c : N) : bool := bool_decide (0xDC00 ≤ c ≤ 0xDFFF)%N.

(** ** Numbers *)

(** A number literal's value, normalised: integers get exponent 0, other
    values lose the trailing zeros of their mantissa.  [k] bounds the
    zeros removed; [Z.to_nat (- e)] is enough. *)
Fixpoint strip_zeros (k : nat) (m e : Z) : Z * Z :=
  match k with
  | O => (m, e)
  | S k' => if bool_decide (e < 0 ∧ m mod 10 = 0)%Z then strip_zeros k' (m / 10)%Z (e + 1)%Z else (m, e)
  end.

Definition mk_number (m e : Z) : jvalue :=
  if bool_decide (0 ≤ e)%Z then JNumber (m * 10 ^ e)%Z 0%Z
  else let '(m', e') := strip_zeros (Z.to_nat (- e)%Z) m e in JNumber m' e'.

(** Decimal digits of a natural number, most significant first.  The fuel
    is the bit length of [n] ([N.size]), which is at least its number of
    decimal digits. *)
Fixpoint digits_fuel (fuel : nat) (n : N) : list N :=
  match fuel with
  | O => [n]
  | S f => if bool_decide (n < 10)%N then [n] else digits_fuel f (n / 10) ++ [n mod 10]
  end.

Definition digits (n : N) : list N := digits_fuel (N.to_nat (N.size n)) n.

Definition digit_char (d : N) : N := ch_0 + d.

Definition N_to_jsstr (n : N) : jsstr := map digit_char (digits n).

(** Number::toString of an integer below 10^21: its sign and digits. *)
Definition Z_to_jsstr (z : Z) : jsstr :=
  match z with
  | Z0 => [ch_0]
  | Zpos p => N_to_jsstr (Npos p)
  | Zneg p => ch_minus :: N_to_jsstr (Npos p)
  end.

Definition number_to_jsstr (m e : Z) : jsstr :=
  if bool_decide (e = 0)%Z then Z_to_jsstr m
  else Z_to_jsstr m ++ [0x65] ++ Z_to_jsstr e.

(** ** QuoteJSONString *)

Definition hex_char (d : N) : N := if bool_decide (d < 10)%N then ch_0 + d else 0x61 + (d - 10).

(** UnicodeEscape(C): "\u" and four lowercase hexadecimal digits. *)
Definition unicode_escape (c : N) : jsstr :=
  [ch_backslash; ch_u; hex_char (c / 4096); hex_char (c / 256 mod 16);
   hex_char (c / 16 mod 16); hex_char (c mod 16)].

(** The table of QuoteJSONString and the control-character case, for a code
    unit that is not a surrogate. *)
Definition escape_unit (c : N) : jsstr :=
  if bool_decide (c = 0x8)%N then [ch_backslash; 0x62]
  else if bool_decide (c = 0x9)%N then [ch_backslash; 0x74]
  else if bool_decide (c = 0xA)%N then [ch_backslash; 0x6E]
  else if bool_decide (c = 0xC)%N then [ch_backslash; 0x66]
  else if bool_decide (c = 0xD)%N then [ch_backslash; 0x72]
  else if bool_decide (c = ch_quote) then [ch_backslash; ch_quote]
  else if bool_decide (c = ch_backslash) then [ch_backslash; ch_backslash]
  else if bool_decide (c < 0x20)%N then unicode_escape c
  else [c].

(** The loop of QuoteJSONString over the code points of the string: a
    surrogate pair is one code point and is copied; a lone surrogate is
    escaped (the well-formed [JSON.stringify] of ES2019). *)
Fixpoint quote_units (s : jsstr) : jsstr :=
  match s with
  | [] => []
  | c :: s' =>
      if is_high_surrogate c then
        match s' with
        | d :: s'' =>
            if is_low_surrogate d then c :: d :: quote_units s''
            else unicode_escape c ++ quote_units s'
        | [] => unicode_escape c
        end
      else if is_low_surrogate c then unicode_escape c ++ quote_units s'
      else escape_unit c ++ quote_units s'
  end.

Definition QuoteJSONString (s : jsstr) : jsstr := ch_quote :: quote_units s ++ [ch_quote].

(** ** SerializeJSONProperty, without gap or indent *)

Definition join_comma (parts : list jsstr) : jsstr :=
  match parts with
  | [] => []
  | p :: ps => p ++ mjoin (map (λ q, ch_comma :: q) ps)
  end.

Fixpoint stringify (v : jvalue) : jsstr :=
  match v with
  | JNull => js "null"
  | JBool true => js "true"
  | JBool false => js "false"
  | JNumber m e => number_to_jsstr m e
  | JString s => QuoteJSONString s
  | JArray vs => ch_lbracket :: join_comma (map stringify vs) ++ [ch_rbracket]
  | JObject fs =>
      ch_lbrace :: join_comma (map (λ kv, QuoteJSONString kv.1 ++ ch_colon :: stringify kv.2) fs)
      ++ [ch_rbrace]
  end.

(** ** JSON.parse *)

(** JSON whitespace: SPACE, TAB, LF, CR. *)
Definition is_json_ws (c : N) : bool := bool_decide (c = 0x20 ∨ c = 0x9 ∨ c = 0xA ∨ c = 0xD).

Definition skip_ws (s : jsstr) : jsstr := drop_while is_json_ws s.

Definition hex_value (c : N) : option N :=
  if bool_decide (0x30 ≤ c ≤ 0x39) then Some (c - 0x30)
  else if bool_decide (0x61 ≤ c ≤ 0x66) then Some (c - 0x61 + 10)
  else if bool_decide (0x41 ≤ c ≤ 0x46) then Some (c - 0x41 + 10)
  else None.

Definition hex4 (a b c d : N) : option N :=
  a' ← hex_value a; b' ← hex_value b; c' ← hex_value c; d' ← hex_value d;
  Some (a' * 4096 + b' * 256 + c' * 16 + d').

(** The single-character escapes of a JSON string. *)
Definition simple_escape (e : N) : option N :=
  if bool_decide (e = ch_quote) then Some ch_quote
  else if bool_decide (e = ch_backslash) then Some ch_backslash
  else if bool_decide (e = 0x2F) then Some 0x2F
  else if bool_decide (e = 0x62) then Some 0x8
  else if bool_decide (e = 0x66) then Some 0xC
  else if bool_decide (e = 0x6E) then Some 0xA
  else if bool_decide (e = 0x72) then Some 0xD
  else if bool_decide (e = 0x74) then Some 0x9
  else None.

Definition cons_fst {A B} (x : A) (o : option (list A * B)) : option (list A * B) :=
  (λ p, (x :: p.1, p.2)) <$> o.

(** The body of a string literal, after its opening quote: the code units
    it denotes and the text after its closing quote. *)
Fixpoint scan_string (s : jsstr) : option (jsstr * jsstr) :=
  match s with
  | [] => None
  | c :: s' =>
      if bool_decide (c = ch_quote) then Some ([], s')
      else if bool_decide (c = ch_backslash) then
        match s' with
        | e :: s'' =>
            if bool_decide (e = ch_u) then
              match s'' with
              | a :: b :: c1 :: d :: r =>
                  match hex4 a b c1 d with
                  | Some u => cons_fst u (scan_string r)
                  | None => None
                  end
              | _ => None
              end
            else match simple_escape e with
                 | Some u => cons_fst u (scan_string s'')
                 | None => None
                 end
        | [] => None
        end
      else if bool_decide (c < 0x20) then None
      else cons_fst c (scan_string s')
  end.

(** A run of decimal digits: the value [acc] extended by the digits, their
    number, and the rest. *)
Fixpoint scan_digits (s : jsstr) (acc : N) (k : nat) : N * nat * jsstr :=
  match s with
  | c :: s' => if is_digit c then scan_digits s' (acc * 10 + (c - ch_0)) (S k) else (acc, k, s)
  | [] => (acc, k, s)
  end.

(** The integer part of a number: 0, or a nonzero digit and more digits. *)
Definition scan_int (s : jsstr) : option (N * jsstr) :=
  match s with
  | c :: s' =>
      if bool_decide (c = ch_0) then Some (0, s')
      else if is_digit c then let '(v, _, r) := scan_digits s' (c - ch_0) 0 in Some (v, r)
      else None
  | [] => None
  end.

(** The fraction part: nothing, or a dot and at least one digit; returns the
    digits' value and their number. *)
Definition scan_frac (s : jsstr) : option (N * nat * jsstr) :=
  match s with
  | c :: s' =>
      if bool_decide (c = ch_dot) then
        let '(v, k, r) := scan_digits s' 0 0 in
        if bool_decide (k = 0%nat) then None else Some (v, k, r)
      else Some (0, 0%nat, s)
  | [] => Some (0, 0%nat, s)
  end.

(** The exponent part: nothing, or e/E, an optional sign and at least one
    digit. *)
Definition scan_exp (s : jsstr) : option (Z * jsstr) :=
  let digits_after (neg : bool) (t : jsstr) :=
    let '(v, k, r) := scan_digits t 0 0 in
    if bool_decide (k = 0%nat) then None
    else Some ((if neg then - Z.of_N v else Z.of_N v)%Z, r) in
  match s with
  | c :: s' =>
      if bool_decide (c = 0x65 ∨ c = 0x45) then
        match s' with
        | d :: t =>
            if bool_decide (d = ch_minus) then digits_after true t
            else if bool_decide (d = ch_plus) then digits_after false t
            else digits_after false s'
        | [] => None
        end
      else Some (0%Z, s)
  | [] => Some (0%Z, s)
  end.

(** The optional minus sign. *)
Definition scan_sign (s : jsstr) : bool * jsstr :=
  match s with
  | c :: s' => if bool_decide (c = ch_minus) then (true, s') else (false, s)
  | [] => (false, s)
  end.

Definition scan_number (s : jsstr) : option (jvalue * jsstr) :=
  let '(neg, s1) := scan_sign s in
  '(i, s2) ← scan_int s1;
  '(fv, fk, s3) ← scan_frac s2;
  '(ex, s4) ← scan_exp s3;
  let mant := Z.of_N (i * 10 ^ N.of_nat fk + fv) in
  Some (mk_number (if neg then - mant else mant)%Z (ex - Z.of_nat fk)%Z, s4).

Fixpoint strip_prefix (p s : jsstr) : option jsstr :=
  match p, s with
  | [], _ => Some s
  | c :: p', d :: s' => if bool_decide (c = d) then strip_prefix p' s' else None
  | _ :: _, [] => None
  end.

Definition scan_literal (s : jsstr) : option (jvalue * jsstr) :=
  match strip_prefix (js "null") s with
  | Some r => Some (JNull, r)
  | None =>
      match strip_prefix (js "true") s with
      | Some r => Some (JBool true, r)
      | None =>
          match strip_prefix (js "false") s with
          | Some r => Some (JBool false, r)
          | None => scan_number s
          end
      end
  end.

(** The recursive descent.  Every call consumes one unit of fuel; a value,
    the elements after an array's [\[] and the members after an object's
    [{] are parsed from text that starts with no whitespace. *)
Fixpoint parse_value (fuel : nat) (s : jsstr) : option (jvalue * jsstr) :=
  match fuel with
  | O => None
  | S f =>
      match s with
      | [] => None
      | c :: s' =>
          if bool_decide (c = ch_lbracket) then
            match skip_ws s' with
            | d :: r => if bool_decide (d = ch_rbracket) then Some (JArray [], r)
                        else '(vs, r') ← parse_elems f (d :: r); Some (JArray vs, r')
            | [] => None
            end
          else if bool_decide (c = ch_lbrace) then
            match skip_ws s' with
            | d :: r => if bool_decide (d = ch_rbrace) then Some (JObject [], r)
                        else '(fs, r') ← parse_members f (d :: r); Some (JObject fs, r')
            | [] => None
            end
          else if bool_decide (c = ch_quote) then
            '(x, r) ← scan_string s'; Some (JString x, r)
          else scan_literal s
      end
  end
with parse_elems (fuel : nat) (s : jsstr) : option (list jvalue * jsstr) :=
  match fuel with
  | O => None
  | S f =>
      '(v, r) ← parse_value f s;
      match skip_ws r with
      | c :: r' =>
          if bool_decide (c = ch_comma) then
            '(vs, r'') ← parse_elems f (skip_ws r'); Some (v :: vs, r'')
          else if bool_decide (c = ch_rbracket) then Some ([v], r')
          else None
      | [] => None
      end
  end
with parse_members (fuel : nat) (s : jsstr) : option (list (jsstr * jvalue) * jsstr) :=
  match fuel with
  | O => None
  | S f =>
      match s with
      | c :: s' =>
          if bool_decide (c = ch_quote) then
            '(k, r) ← scan_string s';
            match skip_ws r with
            | d :: r' =>
                if bool_decide (d = ch_colon) then
                  '(v, r'') ← parse_value f (skip_ws r');
                  match skip_ws r'' with
                  | e :: t =>
                      if bool_decide (e = ch_comma) then
                        '(fs, t') ← parse_members f (skip_ws t); Some ((k, v) :: fs, t')
                      else if bool_decide (e = ch_rbrace) then Some ([(k, v)], t)
                      else None
                  | [] => None
                  end
                else None
            | [] => None
            end
          else None
      | [] => None
      end
  end.

(** [JSON.parse(text)]: whitespace, one value, whitespace, and nothing
    else; [None] is the SyntaxError it throws.  The fuel is twice the length
    of the text plus one: a call of [parse_elems] or [parse_members] that
    recurses has consumed at least two code units (a value and a comma),
    and [parse_fuel_adequate] shows that no larger fuel changes the
    result. *)
Definition JSON_parse (text : jsstr) : option jvalue :=
  match parse_value (S (2 * length text)) (skip_ws text) with
  | Some (v, r) => if bool_decide (skip_ws r = []) then Some v else None
  | None => None
  end.

(** ** Definitions used by the proofs

    Well-formedness of the values of the round trip, and the shapes of
    serialized text that the lemmas below speak about. *)

(** The value of a list of decimal digits, most significant first. *)
Definition digit_fold (acc : N) (ds : list N) : N := foldl (λ a d, a * 10 + d) acc ds.

(** The text after a number literal does not continue it. *)
Definition num_end (r : jsstr) : Prop :=
  match r with
  | [] => True
  | c :: _ => is_digit c = false ∧ c ≠ ch_dot ∧ c ≠ 0x65 ∧ c ≠ 0x45
  end.

(** The values the round trip covers: integers that a double holds exactly
    (safe integers, [|m| < 2^53]) and strings of code units. *)
Fixpoint json_ok (v : jvalue) : bool :=
  match v with
  | JNull | JBool _ => true
  | JNumber m e => bool_decide (e = 0 ∧ Z.abs m < 2 ^ 53)%Z
  | JString s => forallb code_unit_ok s
  | JArray vs => forallb json_ok vs
  | JObject fs => forallb (λ kv, forallb code_unit_ok kv.1 && json_ok kv.2) fs
  end.

(** The first code unit of a serialized value opens it: it is not
    whitespace and closes nothing. *)
Definition value_start (c : N) : Prop :=
  c = ch_minus ∨ 0x30 ≤ c ≤ 0x39 ∨ c = ch_quote ∨ c = ch_lbracket ∨ c = ch_lbrace
  ∨ c = 0x6E ∨ c = 0x74 ∨ c = 0x66.

(** [v] parses back from its serialization followed by any text that
    does not continue a number, for all fuel from some bound on. *)
Definition parses_back (v : jvalue) : Prop :=
  ∀ r, num_end r → ∃ n0, ∀ n, (n0 ≤ n)%nat → parse_value n (stringify v ++ r) = Some (v, r).

(** The text of an object member, [key:value]. *)
Definition member_text (kv : jsstr * jvalue) : jsstr := QuoteJSONString kv.1 ++ ch_colon :: stringify kv.2.

(** * Theorems *)

(** ** The scanners invert the printers *)

Lemma hex_value_hex_char d : d < 16 → hex_value (hex_char d) = Some d.
Proof.
  intros Hd. unfold hex_char, hex_value, ch_0.
  case_bool_decide; repeat case_bool_decide; f_equal; lia.
Qed.

Lemma hex4_unicode_escape c :
  c < 65536 →
  hex4 (hex_char (c / 4096)) (hex_char (c / 256 mod 16)) (hex_char (c / 16 mod 16))
       (hex_char (c mod 16)) = Some c.
Proof.
  intros Hc. unfold hex4.
  rewrite !hex_value_hex_char; try (apply N.mod_lt; lia); [|apply N.Div0.div_lt_upper_bound; lia].
  cbn -[N.mul N.add N.div N.modulo]. f_equal.
  replace (c / 256) with (c / 16 / 16) by (rewrite N.Div0.div_div; done).
  replace (c / 4096) with (c / 16 / 16 / 16) by (rewrite !N.Div0.div_div; done).
  pose proof (N.Div0.div_mod c 16). pose proof (N.Div0.div_mod (c / 16) 16).
  pose proof (N.Div0.div_mod (c / 16 / 16) 16). lia.
Qed.

Lemma scan_string_unicode_escape c r :
  c < 65536 → scan_string (unicode_escape c ++ r) = cons_fst c (scan_string r).
Proof.
  intros Hc. simpl. by rewrite hex4_unicode_escape.
Qed.

Lemma scan_string_raw c r :
  c ≠ ch_quote → c ≠ ch_backslash → ¬ c < 0x20 →
  scan_string (c :: r) = cons_fst c (scan_string r).
Proof. intros H1 H2 H3. simpl. by rewrite !bool_decide_false. Qed.

Lemma scan_string_escape_unit c r :
  c < 65536 → scan_string (escape_unit c ++ r) = cons_fst c (scan_string r).
Proof.
  intros Hc. unfold escape_unit.
  repeat (case_bool_decide; [subst; reflexivity|]).
  case_bool_decide; [by apply scan_string_unicode_escape|].
  simpl. apply scan_string_raw; done.
Qed.

Lemma quote_units_high_low c d s :
  is_high_surrogate c = true → is_low_surrogate d = true →
  quote_units (c :: d :: s) = c :: d :: quote_units s.
Proof. intros Hc Hd. simpl. by rewrite Hc, Hd. Qed.

Lemma scan_string_surrogate c r :
  (is_high_surrogate c || is_low_surrogate c) = true →
  scan_string (c :: r) = cons_fst c (scan_string r).
Proof.
  intros H. unfold is_high_surrogate, is_low_surrogate in H.
  apply orb_true_iff in H as [H|H]; apply bool_decide_eq_true in H;
    apply scan_string_raw; unfold ch_quote, ch_backslash; lia.
Qed.

(** The string scanner inverts QuoteJSONString's loop on every string of
    code units, lone surrogates included. *)
Lemma scan_quote_units s r :
  jsstr_ok s → scan_string (quote_units s ++ ch_quote :: r) = Some (s, r).
Proof.
  remember (length s) as n eqn:Hn. revert s Hn.
  induction n as [n IH] using lt_wf_ind. intros [|c s] Hn Hok; [done|].
  apply Forall_cons in Hok as [Hc Hs]. apply bool_decide_eq_true in Hc.
  cbn [quote_units]. simpl in Hn.
  destruct (is_high_surrogate c) eqn:Eh.
  - destruct s as [|d s'].
    + by rewrite scan_string_unicode_escape.
    + destruct (is_low_surrogate d) eqn:El.
      * apply Forall_cons in Hs as [_ Hs'].
        cbn [app]. rewrite !scan_string_surrogate by (rewrite ?Eh, ?El; by rewrite ?orb_true_r).
        rewrite (IH (length s')) by (simpl in Hn; lia || done). done.
      * rewrite <- app_assoc, scan_string_unicode_escape by done.
        rewrite (IH (length (d :: s'))) by (lia || done). done.
  - destruct (is_low_surrogate c) eqn:El; cbv beta iota; rewrite <- app_assoc;
      [rewrite scan_string_unicode_escape by done | rewrite scan_string_escape_unit by done];
      rewrite (IH (length s)) by (lia || done); done.
Qed.

Lemma digits_fuel_spec k n :
  n < 10 ^ N.of_nat k →
  Forall (λ d, d < 10) (digits_fuel k n) ∧ digit_fold 0 (digits_fuel k n) = n ∧
  (0 < n → ∃ d ds, digits_fuel k n = d :: ds ∧ 0 < d).
Proof.
  revert n. induction k as [|k IH]; intros n Hn; simpl.
  - assert (n = 0) as -> by (simpl in Hn; lia). split; [repeat constructor; lia|]. split; [done|lia].
  - case_bool_decide as Hlt; [split; [repeat constructor; lia|split; [done|eauto]]|].
    rewrite Nat2N.inj_succ, N.pow_succ_r' in Hn.
    destruct (IH (n / 10)) as (Hds & Hval & Hhd); [apply N.Div0.div_lt_upper_bound; lia|].
    split; [apply Forall_app; split; [done|constructor; [apply N.mod_lt; lia|done]]|].
    split.
    + unfold digit_fold in *. rewrite foldl_app, Hval. simpl.
      pose proof (N.Div0.div_mod n 10). lia.
    + intros _. destruct Hhd as (d & ds & -> & Hd); [apply N.div_str_pos; lia|]. eauto.
Qed.

Lemma digits_spec n :
  Forall (λ d, d < 10) (digits n) ∧ digit_fold 0 (digits n) = n ∧
  (0 < n → ∃ d ds, digits n = d :: ds ∧ 0 < d).
Proof.
  apply digits_fuel_spec. rewrite N2Nat.id.
  eapply N.lt_le_trans; [apply N.size_gt|]. apply N.pow_le_mono_l. lia.
Qed.

Lemma scan_digits_map ds r acc k :
  Forall (λ d, d < 10) ds → num_end r →
  scan_digits (map digit_char ds ++ r) acc k = (digit_fold acc ds, (k + length ds)%nat, r).
Proof.
  intros Hds Hr. revert acc k. induction Hds as [|d ds Hd _ IH]; intros acc k; simpl.
  - destruct r as [|c r]; simpl; [by rewrite Nat.add_0_r|].
    destruct Hr as (-> & _). by rewrite Nat.add_0_r.
  - unfold is_digit, digit_char, ch_0. rewrite bool_decide_true by lia.
    rewrite IH. do 2 f_equal; [unfold digit_fold; simpl; f_equal; lia|lia].
Qed.

Lemma scan_frac_end r : num_end r → scan_frac r = Some (0, 0%nat, r).
Proof. destruct r as [|c r]; [done|]. intros (_ & Hd & _). simpl. by rewrite bool_decide_false. Qed.

Lemma scan_exp_end r : num_end r → scan_exp r = Some (0%Z, r).
Proof.
  destruct r as [|c r]; [done|]. intros (_ & _ & He & HE). simpl.
  rewrite bool_decide_false; [done|]. intros [-> | ->]; done.
Qed.

Lemma scan_int_pos p r :
  num_end r → scan_int (N_to_jsstr (Npos p) ++ r) = Some (Npos p, r).
Proof.
  intros Hr. destruct (digits_spec (Npos p)) as (Hds & Hval & Hhd).
  destruct Hhd as (d & ds & Heq & Hd); [lia|].
  unfold N_to_jsstr. rewrite Heq in *. apply Forall_cons in Hds as [Hd10 Hds].
  cbn [map app scan_int]. unfold digit_char, is_digit, ch_0.
  rewrite bool_decide_false by lia. rewrite bool_decide_true by lia.
  rewrite scan_digits_map by done. rewrite <- Hval.
  unfold digit_fold. simpl. do 3 f_equal. lia.
Qed.

Lemma mk_number_int z : mk_number z (0 - Z.of_nat 0) = JNumber z 0.
Proof. unfold mk_number. simpl. by rewrite Z.mul_1_r. Qed.

(** The number scanner inverts Number::toString on integers. *)
Lemma scan_number_Z m r :
  num_end r → scan_number (Z_to_jsstr m ++ r) = Some (JNumber m 0, r).
Proof.
  intros Hr. destruct m as [|p|p]; unfold scan_number.
  - cbn [Z_to_jsstr app scan_sign]. rewrite bool_decide_false by done. simpl.
    rewrite scan_frac_end by done. simpl. rewrite scan_exp_end by done. done.
  - assert (Hneg : ∀ t, scan_sign (N_to_jsstr (Npos p) ++ t) = (false, N_to_jsstr (Npos p) ++ t)).
    { intros t. destruct (digits_spec (Npos p)) as (Hds & _ & Hhd).
      destruct Hhd as (d & ds & Heq & _); [lia|]. unfold N_to_jsstr. rewrite Heq in *.
      apply Forall_cons in Hds as [Hd10 _]. simpl. unfold digit_char, ch_0, ch_minus.
      rewrite bool_decide_false by lia. done. }
    cbn [Z_to_jsstr]. rewrite Hneg, scan_int_pos by done. simpl.
    rewrite scan_frac_end by done. simpl. rewrite scan_exp_end by done. simpl.
    by rewrite Pos.mul_1_r, mk_number_int.
  - cbn [Z_to_jsstr app scan_sign]. rewrite bool_decide_true by done.
    rewrite scan_int_pos by done. simpl.
    rewrite scan_frac_end by done. simpl. rewrite scan_exp_end by done. simpl.
    by rewrite Pos.mul_1_r, mk_number_int.
Qed.

(** ** [JSON.parse] inverts [JSON.stringify] *)

Lemma jsstr_ok_forallb s : forallb code_unit_ok s = true → jsstr_ok s.
Proof. intros H. apply Forall_forall. intros x Hx. apply (proj1 (forallb_forall _ _) H), list_elem_of_In, Hx. Qed.

Lemma Z_to_jsstr_head m :
  ∃ c t, Z_to_jsstr m = c :: t ∧ (c = ch_minus ∨ 0x30 ≤ c ≤ 0x39).
Proof.
  assert (Hp : ∀ p, ∃ c t, N_to_jsstr (Npos p) = c :: t ∧ 0x30 ≤ c ≤ 0x39).
  { intros p. destruct (digits_spec (Npos p)) as (Hds & _ & Hhd).
    destruct Hhd as (d & ds & Heq & _); [lia|]. unfold N_to_jsstr. rewrite Heq in *.
    apply Forall_cons in Hds as [Hd _]. eexists _, _. split; [done|]. unfold digit_char, ch_0. lia. }
  destruct m as [|p|p]; simpl.
  - exists ch_0, []. unfold ch_0. split; [done|lia].
  - destruct (Hp p) as (c & t & -> & ?). eauto.
  - eexists _, _. split; [done|by left].
Qed.

Lemma stringify_head v : ∃ c t, stringify v = c :: t ∧ value_start c.
Proof.
  unfold value_start. destruct v as [| [] |m e| | |]; simpl; try by (eexists _, _; split; [done|naive_solver]).
  unfold number_to_jsstr. destruct (Z_to_jsstr_head m) as (c & t & -> & Hc).
  case_bool_decide; eexists _, _; (split; [done|]); naive_solver.
Qed.

Lemma skip_ws_value_start c t : value_start c → skip_ws (c :: t) = c :: t.
Proof.
  intros Hc. apply drop_while_id. intros x l [= <- _]. unfold is_json_ws.
  apply bool_decide_eq_false. unfold value_start, ch_minus, ch_quote, ch_lbracket, ch_lbrace in Hc. lia.
Qed.

Lemma skip_ws_stringify v r : skip_ws (stringify v ++ r) = stringify v ++ r.
Proof. destruct (stringify_head v) as (c & t & -> & Hc). by apply skip_ws_value_start. Qed.

Lemma strip_prefix_app p r : strip_prefix p (p ++ r) = Some r.
Proof. induction p as [|c p IH]; simpl; [done|]. by rewrite bool_decide_true. Qed.

Lemma join_comma_cons2 p q qs : join_comma (p :: q :: qs) = p ++ ch_comma :: join_comma (q :: qs).
Proof. done. Qed.

(** The text after a value inside an array or an object. *)
Lemma num_end_delim c r : c = ch_comma ∨ c = ch_rbracket ∨ c = ch_rbrace → num_end (c :: r).
Proof. intros Hc. simpl. unfold is_digit, ch_dot. rewrite bool_decide_false by (unfold ch_comma, ch_rbracket, ch_rbrace in Hc; lia). unfold ch_comma, ch_rbracket, ch_rbrace in Hc. lia. Qed.

Lemma skip_ws_delim c r : c = ch_comma ∨ c = ch_rbracket ∨ c = ch_rbrace ∨ c = ch_colon → skip_ws (c :: r) = c :: r.
Proof.
  intros Hc. apply drop_while_id. intros x l [= <- _]. apply bool_decide_eq_false.
  unfold ch_comma, ch_rbracket, ch_rbrace, ch_colon in Hc. lia.
Qed.

#[local] Hint Resolve num_end_delim : core.

Lemma join_comma_app p q qs t :
  join_comma (p :: q :: qs) ++ t = p ++ ch_comma :: (join_comma (q :: qs) ++ t).
Proof. rewrite join_comma_cons2. by rewrite <- app_assoc. Qed.

Lemma skip_ws_join vs t :
  vs ≠ [] → skip_ws (join_comma (map stringify vs) ++ t) = join_comma (map stringify vs) ++ t.
Proof. destruct vs as [|v vs]; [done|]. intros _. simpl. rewrite <- app_assoc. apply skip_ws_stringify. Qed.

Lemma parse_elems_join vs r :
  vs ≠ [] → Forall parses_back vs →
  ∃ n0, ∀ n, (n0 ≤ n)%nat → parse_elems n (join_comma (map stringify vs) ++ ch_rbracket :: r) = Some (vs, r).
Proof.
  induction vs as [|v vs IH]; [done|]. intros _ Hall. apply Forall_cons in Hall as [Hv Hvs].
  destruct vs as [|w ws].
  - destruct (Hv (ch_rbracket :: r)) as [n0 Hn0]; [auto|].
    exists (S n0). intros [|n] Hn; [lia|]. cbn [map join_comma mjoin]. rewrite app_nil_r.
    cbn [parse_elems]. rewrite Hn0 by lia. simpl. done.
  - destruct (IH ltac:(done) Hvs) as [n1 Hn1].
    destruct (Hv (ch_comma :: join_comma (map stringify (w :: ws)) ++ ch_rbracket :: r)) as [n0 Hn0]; [auto|].
    exists (S (max n0 n1)). intros [|n] Hn; [lia|]. cbn [map]. rewrite join_comma_app.
    cbn [parse_elems]. rewrite Hn0 by lia. simpl. rewrite ?skip_ws_delim by auto.
    rewrite ?bool_decide_true by done.
    rewrite <- app_assoc, skip_ws_stringify, app_assoc.
    cbn [map join_comma] in Hn1. rewrite Hn1 by lia. done.
Qed.

Lemma member_text_app kv t :
  member_text kv ++ t = ch_quote :: quote_units kv.1 ++ ch_quote :: ch_colon :: stringify kv.2 ++ t.
Proof. unfold member_text, QuoteJSONString. simpl. by rewrite <- !app_assoc. Qed.

Lemma parse_member_step kv t f :
  jsstr_ok kv.1 →
  parse_members (S f) (member_text kv ++ t) =
  '(v, r'') ← parse_value f (stringify kv.2 ++ t);
  match skip_ws r'' with
  | e :: t' =>
      if bool_decide (e = ch_comma) then '(fs, t'') ← parse_members f (skip_ws t'); Some ((kv.1, v) :: fs, t'')
      else if bool_decide (e = ch_rbrace) then Some ([(kv.1, v)], t')
      else None
  | [] => None
  end.
Proof.
  intros Hk. rewrite member_text_app. cbn [parse_members]. rewrite bool_decide_true by done.
  rewrite scan_quote_units by done. simpl. rewrite ?skip_ws_delim by auto.
  rewrite ?bool_decide_true by done. by rewrite skip_ws_stringify.
Qed.

Lemma parse_members_join fs r :
  fs ≠ [] → Forall (λ kv, jsstr_ok kv.1 ∧ parses_back kv.2) fs →
  ∃ n0, ∀ n, (n0 ≤ n)%nat → parse_members n (join_comma (map member_text fs) ++ ch_rbrace :: r) = Some (fs, r).
Proof.
  induction fs as [|[k v] fs IH]; [done|]. intros _ Hall. apply Forall_cons in Hall as [[Hk Hv] Hfs].
  destruct fs as [|kv' fs'].
  - destruct (Hv (ch_rbrace :: r)) as [n0 Hn0]; [auto|].
    exists (S n0). intros [|n] Hn; [lia|]. cbn [map join_comma mjoin]. rewrite app_nil_r.
    rewrite parse_member_step by done. rewrite Hn0 by lia. simpl. by rewrite ?skip_ws_delim by auto.
  - destruct (IH ltac:(done) Hfs) as [n1 Hn1].
    destruct (Hv (ch_comma :: join_comma (map member_text (kv' :: fs')) ++ ch_rbrace :: r)) as [n0 Hn0]; [auto|].
    exists (S (max n0 n1)). intros [|n] Hn; [lia|]. cbn [map]. rewrite join_comma_app.
    rewrite parse_member_step by done.
    set (X := join_comma (map member_text (kv' :: fs')) ++ ch_rbrace :: r) in *.
    rewrite Hn0 by lia. simpl. rewrite ?skip_ws_delim by auto.
    rewrite ?bool_decide_true by done.
    assert (skip_ws X = X) as ->.
    { subst X. cbn [map join_comma]. rewrite <- app_assoc, member_text_app.
      apply skip_ws_value_start. unfold value_start. auto. }
    cbn [map] in Hn1. rewrite Hn1 by lia. done.
Qed.

Lemma parse_value_open f open close s :
  open = ch_lbracket ∧ close = ch_rbracket ∨ open = ch_lbrace ∧ close = ch_rbrace →
  (∃ c t, s = c :: t ∧ value_start c) →
  parse_value (S f) (open :: s) =
  if bool_decide (open = ch_lbracket) then '(vs, r') ← parse_elems f s; Some (JArray vs, r')
  else '(fs, r') ← parse_members f s; Some (JObject fs, r').
Proof.
  intros Hoc (c & t & -> & Hc). unfold value_start in Hc.
  destruct Hoc as [[-> ->]|[-> ->]]; cbn [parse_value].
  - rewrite bool_decide_true by done. rewrite skip_ws_value_start by (unfold value_start; tauto).
    cbv beta iota. rewrite bool_decide_false; [done|].
    unfold ch_minus, ch_quote, ch_lbracket, ch_lbrace, ch_rbracket in *. lia.
  - rewrite bool_decide_false by done. rewrite bool_decide_true by done.
    rewrite skip_ws_value_start by (unfold value_start; tauto).
    cbv beta iota. rewrite bool_decide_false; [done|].
    unfold ch_minus, ch_quote, ch_lbracket, ch_lbrace, ch_rbrace in *. lia.
Qed.

Lemma parse_value_Z f m r : parse_value (S f) (Z_to_jsstr m ++ r) = scan_number (Z_to_jsstr m ++ r).
Proof.
  destruct (Z_to_jsstr_head m) as (c & t & Heq & Hc). rewrite Heq. cbn [app parse_value].
  unfold ch_minus, ch_lbracket, ch_lbrace, ch_quote in *.
  rewrite !bool_decide_false by lia. unfold scan_literal. simpl.
  rewrite !bool_decide_false by lia. done.
Qed.

Lemma forallb_Forall {A} (f : A → bool) (P Q : A → Prop) l :
  forallb f l = true → Forall P l → (∀ x, f x = true → P x → Q x) → Forall Q l.
Proof.
  intros Hf HP HQ. apply Forall_forall. intros x Hx.
  pose proof (proj1 (forallb_forall _ _) Hf x (proj1 (list_elem_of_In _ _) Hx)) as Hfx.
  apply HQ; [done|]. by apply (proj1 (Forall_forall _ _) HP x Hx).
Qed.

Lemma stringify_JArray vs :
  stringify (JArray vs) = ch_lbracket :: join_comma (map stringify vs) ++ [ch_rbracket].
Proof. done. Qed.

Lemma stringify_JObject fs :
  stringify (JObject fs) = ch_lbrace :: join_comma (map member_text fs) ++ [ch_rbrace].
Proof. done. Qed.

(** Every well-formed value parses back from its serialization, followed
    by any text that does not continue a number. *)
Lemma parse_stringify v : json_ok v = true → parses_back v.
Proof.
  induction v as [| b | m e | s | vs IH | fs IH] using jvalue_ind'; intros Hok r Hr.
  - exists 1%nat. intros [|n] Hn; [lia|]. done.
  - exists 1%nat. intros [|n] Hn; [lia|]. by destruct b.
  - apply bool_decide_eq_true in Hok as [-> _]. exists 1%nat. intros [|n] Hn; [lia|].
    cbn [stringify]. unfold number_to_jsstr. rewrite bool_decide_true by done.
    rewrite parse_value_Z. by apply scan_number_Z.
  - exists 1%nat. intros [|n] Hn; [lia|]. simpl stringify. unfold QuoteJSONString.
    cbn [app parse_value]. rewrite <- app_assoc. simpl.
    rewrite scan_quote_units; [done|by apply jsstr_ok_forallb].
  - destruct vs as [|v vs'].
    + exists 1%nat. intros [|n] Hn; [lia|]. done.
    + destruct (parse_elems_join (v :: vs') r) as [n0 Hn0]; [done| |].
      { eapply forallb_Forall; [exact Hok|exact IH|]. intros x Hx HP. by apply HP. }
      exists (S n0). intros [|n] Hn; [lia|].
      rewrite stringify_JArray. cbn [app]. rewrite <- app_assoc. cbn [app].
      rewrite (parse_value_open _ _ ch_rbracket); [|by left|].
      * rewrite bool_decide_true by done. rewrite Hn0 by lia. done.
      * destruct (stringify_head v) as (c & t & Heq & Hc). cbn [map join_comma].
        rewrite Heq. eauto.
  - destruct fs as [|kv fs'].
    + exists 1%nat. intros [|n] Hn; [lia|]. done.
    + destruct (parse_members_join (kv :: fs') r) as [n0 Hn0]; [done| |].
      { eapply forallb_Forall; [exact Hok|exact IH|]. intros [k w] Hkw Hw. simpl in *.
        apply andb_true_iff in Hkw as [Hk Hw']. split; [by apply jsstr_ok_forallb|by apply Hw]. }
      exists (S n0). intros [|n] Hn; [lia|].
      rewrite stringify_JObject. cbn [app]. rewrite <- app_assoc. cbn [app].
      rewrite (parse_value_open _ _ ch_rbrace); [|by right|].
      * rewrite bool_decide_false by done. rewrite Hn0 by lia. done.
      * cbn [map join_comma]. rewrite <- app_assoc, member_text_app. eexists _, _.
        split; [done|]. unfold value_start. auto.
Qed.

(** ** Fuel: the descent consumes its input, and fuel beyond twice the
    length of the text never changes the result *)

Lemma skip_ws_length s : (length (skip_ws s) ≤ length s)%nat.
Proof. apply suffix_length, drop_while_suffix. Qed.

Lemma cons_fst_Some {A B} (u : A) (o : option (list A * B)) x r :
  cons_fst u o = Some (x, r) → ∃ x', o = Some (x', r).
Proof. unfold cons_fst. intros [[x' r'] [-> [=]]]%fmap_Some. simplify_eq/=. eauto. Qed.

Lemma scan_string_shorter s x r : scan_string s = Some (x, r) → (length r < length s)%nat.
Proof.
  remember (length s) as n eqn:Hn. revert s x r Hn.
  induction n as [n IH] using lt_wf_ind. intros [|c s] x r Hn H; [done|]. simpl in Hn. subst n.
  cbn [scan_string] in H.
  case_bool_decide; [simplify_eq/=; lia|]. case_bool_decide.
  - destruct s as [|e s'']; [done|]. case_bool_decide.
    + destruct s'' as [|a [|b [|c1 [|d r0]]]]; try done. destruct (hex4 a b c1 d); [|done].
      apply cons_fst_Some in H as [x' H].
      pose proof (IH (length r0) ltac:(simpl; lia) r0 x' r eq_refl H). simpl. lia.
    + destruct (simple_escape e); [|done]. apply cons_fst_Some in H as [x' H].
      pose proof (IH (length s'') ltac:(simpl; lia) s'' x' r eq_refl H). simpl. lia.
  - case_bool_decide; [done|]. apply cons_fst_Some in H as [x' H].
    pose proof (IH (length s) ltac:(lia) s x' r eq_refl H). simpl. lia.
Qed.

Lemma scan_digits_length s acc k : (length (scan_digits s acc k).2 ≤ length s)%nat.
Proof.
  revert acc k. induction s as [|c s IH]; intros acc k; simpl; [lia|].
  destruct (is_digit c); simpl; [|lia]. specialize (IH (acc * 10 + (c - ch_0)) (S k)). lia.
Qed.

Lemma scan_number_shorter s v r : scan_number s = Some (v, r) → (length r < length s)%nat.
Proof.
  intros H. unfold scan_number in H.
  destruct (scan_sign s) as [neg s1] eqn:E1.
  assert (length s1 ≤ length s)%nat.
  { destruct s; simpl in E1; [by simplify_eq|]. case_bool_decide; simplify_eq/=; lia. }
  destruct (scan_int s1) as [[i s2]|] eqn:E2; [|done]. simpl in H.
  destruct (scan_frac s2) as [[[fv fk] s3]|] eqn:E3; [|done]. simpl in H.
  destruct (scan_exp s3) as [[ex s4]|] eqn:E4; [|done]. simpl in H. simplify_eq.
  assert (length s2 < length s1)%nat.
  { destruct s1 as [|c s1']; [done|]. simpl in E2. case_bool_decide; [simplify_eq/=; lia|].
    case_match; [|done]. destruct (scan_digits s1' _ _) as [[v' k'] r'] eqn:Ed. simplify_eq/=.
    pose proof (scan_digits_length s1' (c - ch_0) 0) as Hl. rewrite Ed in Hl. simpl in Hl. lia. }
  assert (length s3 ≤ length s2)%nat.
  { destruct s2 as [|c s2']; simpl in E3; [by simplify_eq|]. case_bool_decide; [|by simplify_eq].
    destruct (scan_digits s2' 0 0) as [[v' k'] r'] eqn:Ed. case_bool_decide; [done|]. simplify_eq.
    pose proof (scan_digits_length s2' 0 0) as Hl. rewrite Ed in Hl. simpl in *. lia. }
  assert (length r ≤ length s3)%nat.
  { destruct s3 as [|c s3']; simpl in E4; [by simplify_eq|]. case_bool_decide; [|by simplify_eq].
    destruct s3' as [|d t]; [done|].
    repeat case_bool_decide;
      match type of E4 with
      | context [scan_digits ?u 0 0] =>
          pose proof (scan_digits_length u 0 0) as Hl; destruct (scan_digits u 0 0) as [[v' k'] r']
      end; simpl in *; case_bool_decide; simplify_eq/=; lia. }
  lia.
Qed.

Lemma strip_prefix_length p s r : strip_prefix p s = Some r → length s = (length p + length r)%nat.
Proof.
  revert s. induction p as [|c p IH]; intros [|d s] H; simpl in *; simplify_eq; try done.
  case_bool_decide; [|done]. rewrite (IH s H). lia.
Qed.

Lemma scan_literal_shorter s v r : scan_literal s = Some (v, r) → (length r < length s)%nat.
Proof.
  unfold scan_literal. intros H.
  repeat (case_match; [simplify_eq; match goal with E : strip_prefix _ _ = Some _ |- _ =>
                                           apply strip_prefix_length in E; simpl in E; lia end|]).
  by apply scan_number_shorter in H.
Qed.

Lemma skip_ws_cons_length s c r : skip_ws s = c :: r → (length r < length s)%nat.
Proof. intros E. pose proof (skip_ws_length s) as H. rewrite E in H. simpl in H. lia. Qed.

Lemma parse_consumes n :
  (∀ s v r, parse_value n s = Some (v, r) → (length r < length s)%nat) ∧
  (∀ s vs r, parse_elems n s = Some (vs, r) → (length r < length s)%nat) ∧
  (∀ s fs r, parse_members n s = Some (fs, r) → (length r < length s)%nat).
Proof.
  induction n as [|f (IHv & IHe & IHm)]; [done|]. split_and!.
  - intros [|c s] v r H; [done|]. cbn [parse_value] in H.
    repeat case_bool_decide.
    + destruct (skip_ws s) as [|d r0] eqn:E; [done|]. pose proof (skip_ws_cons_length _ _ _ E).
      case_bool_decide; [simplify_eq/=; lia|].
      destruct (parse_elems f (d :: r0)) as [[vs r1]|] eqn:E1; simplify_eq/=. apply IHe in E1. simpl in *. lia.
    + destruct (skip_ws s) as [|d r0] eqn:E; [done|]. pose proof (skip_ws_cons_length _ _ _ E).
      case_bool_decide; [simplify_eq/=; lia|].
      destruct (parse_members f (d :: r0)) as [[fs r1]|] eqn:E1; simplify_eq/=. apply IHm in E1. simpl in *. lia.
    + destruct (scan_string s) as [[x r1]|] eqn:E1; simplify_eq/=. apply scan_string_shorter in E1. lia.
    + by apply scan_literal_shorter in H.
  - intros s vs r H. cbn [parse_elems] in H.
    destruct (parse_value f s) as [[v r0]|] eqn:E0; [|done]. simpl in H. apply IHv in E0.
    destruct (skip_ws r0) as [|c r1] eqn:E; [done|]. pose proof (skip_ws_cons_length _ _ _ E).
    case_bool_decide.
    + destruct (parse_elems f (skip_ws r1)) as [[vs' r2]|] eqn:E2; simplify_eq/=.
      apply IHe in E2. pose proof (skip_ws_length r1). lia.
    + case_bool_decide; simplify_eq/=; lia.
  - intros [|c s] fs r H; [done|]. cbn [parse_members] in H. case_bool_decide; [|done].
    destruct (scan_string s) as [[k r0]|] eqn:E0; [|done]. simpl in H. apply scan_string_shorter in E0.
    destruct (skip_ws r0) as [|d r1] eqn:E; [done|]. pose proof (skip_ws_cons_length _ _ _ E).
    case_bool_decide; [|done].
    destruct (parse_value f (skip_ws r1)) as [[v r2]|] eqn:E2; [|done]. simpl in H.
    apply IHv in E2. pose proof (skip_ws_length r1).
    destruct (skip_ws r2) as [|e t] eqn:E3; [done|]. pose proof (skip_ws_cons_length _ _ _ E3).
    case_bool_decide.
    + destruct (parse_members f (skip_ws t)) as [[fs' t']|] eqn:E4; simplify_eq/=.
      apply IHm in E4. pose proof (skip_ws_length t). simpl. lia.
    + case_bool_decide; simplify_eq/=; lia.
Qed.

Lemma parse_fuel_stable n :
  (∀ s m, (2 * length s < n ≤ m)%nat → parse_value m s = parse_value n s) ∧
  (∀ s m, (2 * length s + 1 < n ≤ m)%nat → parse_elems m s = parse_elems n s) ∧
  (∀ s m, (2 * length s + 1 < n ≤ m)%nat → parse_members m s = parse_members n s).
Proof.
  induction n as [|f (IHv & IHe & IHm)]; [split_and!; intros; lia|]. split_and!.
  - intros [|c s] [|g] Hm; [done|done|lia|]. cbn [parse_value].
    destruct (skip_ws s) as [|d r] eqn:E; [done|]. pose proof (skip_ws_cons_length _ _ _ E).
    simpl in Hm. rewrite (IHe (d :: r) g), (IHm (d :: r) g) by (simpl; lia). done.
  - intros s [|g] Hm; [lia|]. cbn [parse_elems]. rewrite (IHv s g) by lia.
    destruct (parse_value f s) as [[v r0]|] eqn:E0; [|done]. simpl.
    apply (proj1 (parse_consumes f)) in E0.
    destruct (skip_ws r0) as [|c r1] eqn:E; [done|]. pose proof (skip_ws_cons_length _ _ _ E).
    pose proof (skip_ws_length r1). by rewrite (IHe (skip_ws r1) g) by lia.
  - intros [|c s] [|g] Hm; [done|done|lia|]. cbn [parse_members]. case_bool_decide; [|done].
    destruct (scan_string s) as [[k r0]|] eqn:E0; [|done]. simpl. apply scan_string_shorter in E0.
    destruct (skip_ws r0) as [|d r1] eqn:E; [done|]. pose proof (skip_ws_cons_length _ _ _ E).
    pose proof (skip_ws_length r1). simpl in Hm.
    rewrite (IHv (skip_ws r1) g) by lia.
    destruct (parse_value f (skip_ws r1)) as [[v r2]|] eqn:E2; [|by case_bool_decide]. simpl.
    apply (proj1 (parse_consumes f)) in E2.
    destruct (skip_ws r2) as [|e t] eqn:E3; [done|]. pose proof (skip_ws_cons_length _ _ _ E3).
    pose proof (skip_ws_length t). by rewrite (IHm (skip_ws t) g) by lia.
Qed.

(** The round trip, with the fuel of [JSON_parse]. *)
Lemma parse_of_stringify v : json_ok v = true → JSON_parse (stringify v) = Some v.
Proof.
  intros Hok. unfold JSON_parse.
  rewrite <- (app_nil_r (stringify v)) at 2. rewrite skip_ws_stringify, app_nil_r.
  destruct (parse_stringify v Hok [] I) as [n0 Hn0]. rewrite app_nil_r in Hn0.
  rewrite <- (proj1 (parse_fuel_stable (S (2 * length (stringify v)))) _ (max n0 (S (2 * length (stringify v))))) by lia.
  rewrite Hn0 by lia. done.
Qed.

(** ** The length of a printed integer *)

Lemma digit_fold_bounds acc ds :
  Forall (λ d, d < 10) ds →
  acc * 10 ^ N.of_nat (length ds) ≤ digit_fold acc ds < (acc + 1) * 10 ^ N.of_nat (length ds).
Proof.
  revert acc. induction ds as [|d ds IH]; intros acc Hds; simpl; [lia|].
  apply Forall_cons in Hds as [Hd Hds]. destruct (IH (acc * 10 + d) Hds) as [Hlo Hhi].
  unfold digit_fold in *. simpl. rewrite Nat2N.inj_succ, N.pow_succ_r'.
  set (p := 10 ^ N.of_nat (length ds)) in *. split; nia.
Qed.

Lemma N_to_jsstr_bounds n :
  0 < n → 10 ^ N.of_nat (length (N_to_jsstr n) - 1) ≤ n < 10 ^ N.of_nat (length (N_to_jsstr n)).
Proof.
  intros Hn. destruct (digits_spec n) as (Hall & Hfold & Hhead).
  destruct (Hhead Hn) as (d & ds & Hds & Hd). unfold N_to_jsstr. rewrite length_map, Hds.
  rewrite Hds in Hall, Hfold. apply Forall_cons in Hall as [Hd10 Hall].
  assert (Hf : digit_fold d ds = n).
  { rewrite <- Hfold. unfold digit_fold. simpl. by rewrite N.add_0_l. }
  destruct (digit_fold_bounds d ds Hall) as [Hlo Hhi]. rewrite Hf in Hlo, Hhi. simpl length.
  replace (S (length ds) - 1)%nat with (length ds) by lia. rewrite Nat2N.inj_succ, N.pow_succ_r'.
  split; nia.
Qed.

(** ** Headline theorems *)

(** C22: Fuel adequacy of [JSON_parse]: on any text, every fuel above twice its
    length gives the same outcome, so the fuel chosen in [JSON_parse] is
    never the cause of a SyntaxError. *)
Theorem parse_fuel_adequate s n :
  (2 * length s < n)%nat → parse_value n s = parse_value (S (2 * length s)) s.
Proof. intros H. apply (proj1 (parse_fuel_stable (S (2 * length s)))). lia. Qed.


(** C29: bounds of [Number::toString] on a positive integer: the text
    has exactly as many digits as the decimal length of the number, no
    leading zero and no digit lost: [10^(k-1) <= n < 10^k] for [k] its
    length. *)
Theorem N_to_jsstr_length n :
  0 < n → 10 ^ N.of_nat (length (N_to_jsstr n) - 1) ≤ n < 10 ^ N.of_nat (length (N_to_jsstr n)).
Proof. apply N_to_jsstr_bounds. Qed.

(** C3: [JSON.parse(JSON.stringify(v))] gives back [v] for every well-formed
    value. *)
Theorem JSON_parse_stringify v : json_ok v = true → JSON_parse (stringify v) = Some v.
Proof. apply parse_of_stringify. Qed.

Lemma parse_fuel_adequate_witness :
  parse_value 100 (js "[1, {}]") = parse_value (S (2 * length (js "[1, {}]"))) (js "[1, {}]").
Proof. apply parse_fuel_adequate. simpl. lia. Defined.

(** A lone surrogate, a quote and a control character in a key and a
    string. *)
Lemma JSON_parse_stringify_witness :
  let v := JObject [([0x22; 0x7]%N, JArray [JString [0xDC00; 0x5C]%N; JNumber (-42) 0; JNull; JBool true])] in
  JSON_parse (stringify v) = Some v.
Proof. intros v. apply JSON_parse_stringify. reflexivity. Defined.

Lemma N_to_jsstr_length_witness :
  10 ^ N.of_nat (length (N_to_jsstr 1700000000000) - 1) ≤ 1700000000000 < 10 ^ N.of_nat (length (N_to_jsstr 1700000000000)).
Proof. apply N_to_jsstr_length. lia. Defined.

