(* ===== verification/Storage.v ===== *)
(** The Web Storage port: [localStorage] as [src/app.js] uses it.

    The program reads the key ['todos'] once, in [data()] (app.js line 24:
    [localStorage.getItem('todos')]), and writes it in [saveTodos]
    (line 79: [localStorage.setItem('todos', ...)]).  Per the Web Storage
    standard, [getItem] returns the stored string or [null], and [setItem]
    either stores the pair or throws a [QuotaExceededError] and leaves the
    storage unchanged.

    The interface is the type class [WebStorage] (the two operations) with
    [WebStorageLaws] (what a client may rely on: a successful [setItem] is
    read back by [getItem] and leaves every other key alone).  The component
    [TodoList] is verified against the class; [local_storage] below, a
    [gmap] of strings with a quota in code units, is the instance that
    models a browser's storage area and discharges the laws. *)

From S2P Require Import Prelude JsString.

Class WebStorage (S : Type) := {
  getItem : S → jsstr → option jsstr;
  (** [None] is the [QuotaExceededError] that [setItem] throws. *)
  setItem : S → jsstr → jsstr → option S;
}.

Class WebStorageLaws (S : Type) `{WebStorage S} := {
  getItem_setItem_eq st k v st' : setItem st k v = Some st' → getItem st' k = Some v;
  getItem_setItem_ne st k k' v st' : setItem st k v = Some st' → k ≠ k' → getItem st' k' = getItem st k';
}.

(** A browser storage area: its items and the quota, counted in code units
    of keys and values as browsers count it. *)
Record local_storage := {
  ls_items : gmap jsstr jsstr;
  ls_quota : nat;
}.

Definition items_size (m : gmap jsstr jsstr) : nat :=
  map_fold (λ k v acc, length k + length v + acc)%nat 0%nat m.

Definition ls_getItem (st : local_storage) (k : jsstr) : option jsstr := ls_items st !! k.

Definition ls_setItem (st : local_storage) (k v : jsstr) : option local_storage :=
  let m := <[k := v]> (ls_items st) in
  if bool_decide (items_size m ≤ ls_quota st)%nat
  then Some {| ls_items := m; ls_quota := ls_quota st |}
  else None.

#[export] Instance local_storage_WebStorage : WebStorage local_storage := {
  getItem := ls_getItem;
  setItem := ls_setItem;
}.

#[export] Instance local_storage_laws : WebStorageLaws local_storage.
Proof.
  split; simpl; unfold ls_getItem, ls_setItem; intros st k; [intros v st' H | intros k' v st' H Hne];
    case_bool_decide; simplify_eq/=; [apply lookup_insert_eq | by apply lookup_insert_ne].
Qed.
