(* ===== verification/TodoModel.v ===== *)
(** The task record and its persistence format.

    [addTodo] (app.js lines 50-54) builds [{ id: Date.now(), text:
    this.newTodo, completed: false }]; [saveTodos] (line 79) writes
    [JSON.stringify(this.todos)]; [data()] (line 24) reads
    [JSON.parse(localStorage.getItem('todos') || '[]')].

    - [todo] is the record, with the source's field names.
    - [encode_todos] is the JSON value [JSON.stringify] serializes: an
      array of objects with the keys in the order the object literal of
      [addTodo] creates them.
    - [hydrate] is the expression of [data()]: [None] from [getItem] and
      the empty string both fall back to ['[]'] ([||]); a text that
      [JSON.parse] rejects throws a SyntaxError out of [data()]
      ([ParseError]); valid JSON that is not an array of such objects is
      [Foreign]: the code would carry on with that value, which the model
      does not follow.
    - Ids are [Date.now()] values.  ECMAScript time values lie in
      [-8.64e15, 8.64e15] ([time_value_ok]), which are safe integers, so the
      double holding an id is exact and [JSON.stringify] prints its digits.

    Theorems: decoding inverts encoding, and hydrating what [saveTodos]
    wrote gives back the same list ([hydrate_save]). *)

From S2P Require Import Prelude JsString Json.

Record todo := mk_todo {
  id : Z;
  text : jsstr;
  completed : bool;
}.

#[export] Instance todo_eq_dec : EqDecision todo.
Proof. solve_decision. Defined.

(** A time value of ECMAScript: at most 8.64e15 milliseconds from the
    epoch, the range of [Date.now()]. *)
Definition time_value_ok (t : Z) : bool := bool_decide (Z.abs t ≤ 8640000000000000)%Z.

(** A task that the persistence format represents exactly. *)
Definition todo_ok (t : todo) : bool :=
  bool_decide (Z.abs (id t) < 2 ^ 53)%Z && forallb code_unit_ok (text t).

Definition key_id : jsstr := js "id".
Definition key_text : jsstr := js "text".
Definition key_completed : jsstr := js "completed".

Definition encode_todo (t : todo) : jvalue :=
  JObject [(key_id, JNumber (id t) 0); (key_text, JString (text t)); (key_completed, JBool (completed t))].

Definition encode_todos (l : list todo) : jvalue := JArray (map encode_todo l).

Definition decode_todo (v : jvalue) : option todo :=
  match v with
  | JObject [(k1, JNumber i e); (k2, JString s); (k3, JBool b)] =>
      if bool_decide (k1 = key_id ∧ e = 0%Z ∧ k2 = key_text ∧ k3 = key_completed)
      then Some (mk_todo i s b) else None
  | _ => None
  end.

Definition decode_todos (v : jvalue) : option (list todo) :=
  match v with
  | JArray vs => mapM decode_todo vs
  | _ => None
  end.

(** What [data()] makes of the stored text. *)
Inductive hydration :=
| Hydrated (l : list todo)
| ParseError
| Foreign (v : jvalue).

Definition hydrate (stored : option jsstr) : hydration :=
  match JSON_parse (or_else stored (js "[]")) with
  | None => ParseError
  | Some v => match decode_todos v with
              | Some l => Hydrated l
              | None => Foreign v
              end
  end.

(** The text [saveTodos] writes. *)
Definition serialize_todos (l : list todo) : jsstr := stringify (encode_todos l).

(** * Theorems *)

Lemma time_value_safe t : time_value_ok t = true → (Z.abs t < 2 ^ 53)%Z.
Proof. unfold time_value_ok. rewrite bool_decide_eq_true. lia. Qed.

Lemma decode_encode_todo t : decode_todo (encode_todo t) = Some t.
Proof. by destruct t. Qed.

Lemma decode_encode_todos l : decode_todos (encode_todos l) = Some l.
Proof.
  unfold decode_todos, encode_todos. induction l as [|t l IH]; [done|].
  cbn [map mapM]. rewrite decode_encode_todo, IH. done.
Qed.

Lemma encode_todos_ok l : forallb todo_ok l = true → json_ok (encode_todos l) = true.
Proof.
  induction l as [|t l IH]; [done|]. simpl. intros [Ht Hl]%andb_true_iff.
  unfold todo_ok in Ht. apply andb_true_iff in Ht as [Hid Htext].
  apply bool_decide_eq_true in Hid. rewrite bool_decide_true by lia.
  rewrite Htext. simpl. by apply IH.
Qed.

Lemma serialize_todos_truthy l : truthy (serialize_todos l) = true.
Proof. done. Qed.

Lemma hydrate_serialize l : forallb todo_ok l = true → hydrate (Some (serialize_todos l)) = Hydrated l.
Proof.
  intros Hl. unfold hydrate, or_else. rewrite serialize_todos_truthy. unfold serialize_todos.
  rewrite parse_of_stringify by (by apply encode_todos_ok). by rewrite decode_encode_todos.
Qed.

(** C2: Hydrating the text [saveTodos] wrote gives back the list that was
    saved, order, ids, texts and flags included. *)
Theorem hydrate_save l : forallb todo_ok l = true → hydrate (Some (serialize_todos l)) = Hydrated l.
Proof. apply hydrate_serialize. Qed.

(** A missing key and an empty string both hydrate to the empty list. *)
Lemma hydrate_missing : hydrate None = Hydrated [] ∧ hydrate (Some []) = Hydrated [].
Proof. split; vm_compute; reflexivity. Qed.

Lemma hydrate_save_witness :
  hydrate (Some (serialize_todos [mk_todo 1700000000000 (js "buy milk") false; mk_todo (-3) [0xD800%N] true]))
  = Hydrated [mk_todo 1700000000000 (js "buy milk") false; mk_todo (-3) [0xD800%N] true].
Proof. apply hydrate_save. reflexivity. Defined.

