(* ===== verification/TodoList.v ===== *)
(** The [TodoList] page component (app.js lines 18-81): its reactive state,
    its methods and its computed properties.

    State.  [data()] returns [{ todos, newTodo, filter }]; the model's
    [state] adds the storage area the component shares with the browser,
    through the [WebStorage] interface of [Storage], so that every theorem
    below holds for any storage that satisfies [WebStorageLaws].

    Methods.  Each method is a function [state -> state * outcome]: the
    state after the handler and whether it returned or threw.  A handler
    that throws (only [localStorage.setItem] can, with a
    [QuotaExceededError]) has already made the mutations that precede the
    throw; Vue's handler wrapper logs the error and the page goes on with
    that state, which is what [(st', Threw e)] records.
    - [addTodo]: the guard [this.newTodo.trim()], the pushed task (with
      the untrimmed text), the reset of [newTodo], then [saveTodos].
    - [toggleTodo]: [Array.prototype.find] is stdpp's [list_find]; the
      assignment [todo.completed = !todo.completed] mutates the object found
      in place, which is an update of the array at the index found: the
      objects of [todos] are referenced by the array alone ([JSON.parse] and
      [addTodo] create fresh objects, and the computed arrays are rebuilt
      from it), so there is no other alias to model.
    - [deleteTodo], [clearCompleted]: [Array.prototype.filter] is
      [List.filter]; both save unconditionally.
    - [setFilter]: assigns any string; it does not save.
    Computed properties are functions of the state.

    Theorems: the functional behaviour of every method on every branch,
    the storage-sync invariant (after a
    handler returns, the stored text hydrates to [todos]), the write
    policy, the id uniqueness invariant under a strictly increasing clock
    and its failure under an equal clock, what a [QuotaExceededError] and
    a corrupt or missing storage do.  The closing section applies them to
    concrete pages on a [local_storage]. *)

From S2P Require Import Prelude JsString Json Storage TodoModel.

(** The exceptions the component can raise. *)
Inductive js_error := QuotaExceededError | SyntaxError.

Inductive outcome := Returned | Threw (e : js_error).

Definition filter_all : jsstr := js "all".
Definition filter_active : jsstr := js "active".
Definition filter_completed : jsstr := js "completed".
Definition storage_key : jsstr := js "todos".

Section TodoList.
Context {S : Type} `{WebStorage S}.

Record state := mk_state {
  todos : list todo;
  newTodo : jsstr;
  filter : jsstr;
  storage : S;
}.

Definition set_todos (l : list todo) (st : state) : state :=
  mk_state l (newTodo st) (filter st) (storage st).
Definition set_newTodo (s : jsstr) (st : state) : state :=
  mk_state (todos st) s (filter st) (storage st).
Definition set_filter (f : jsstr) (st : state) : state :=
  mk_state (todos st) (newTodo st) f (storage st).
Definition set_storage (ls : S) (st : state) : state :=
  mk_state (todos st) (newTodo st) (filter st) ls.

(** [data()]: hydrate [todos], empty input, filter ['all']. *)
Inductive mount_result :=
| Mounted (st : state)
| MountThrew (e : js_error)
| MountForeign (v : jvalue).

Definition data (ls : S) : mount_result :=
  match hydrate (getItem ls storage_key) with
  | Hydrated l => Mounted (mk_state l [] filter_all ls)
  | ParseError => MountThrew SyntaxError
  | Foreign v => MountForeign v
  end.

(** [saveTodos()] *)
Definition saveTodos (st : state) : state * outcome :=
  match setItem (storage st) storage_key (serialize_todos (todos st)) with
  | Some ls => (set_storage ls st, Returned)
  | None => (st, Threw QuotaExceededError)
  end.

(** [addTodo()], with [now] the value [Date.now()] returns. *)
Definition addTodo (now : Z) (st : state) : state * outcome :=
  if truthy (trim (newTodo st)) then
    let newTask := mk_todo now (newTodo st) false in
    saveTodos (set_newTodo [] (set_todos (todos st ++ [newTask]) st))
  else (st, Returned).

Definition flip_completed (t : todo) : todo := mk_todo (id t) (text t) (negb (completed t)).

(** [toggleTodo(id)] *)
Definition toggleTodo (i : Z) (st : state) : state * outcome :=
  match list_find (λ t, id t = i) (todos st) with
  | Some (k, t) => saveTodos (set_todos (<[k := flip_completed t]> (todos st)) st)
  | None => (st, Returned)
  end.

(** [deleteTodo(id)] *)
Definition deleteTodo (i : Z) (st : state) : state * outcome :=
  saveTodos (set_todos (List.filter (λ t, negb (Z.eqb (id t) i)) (todos st)) st).

(** [clearCompleted()] *)
Definition clearCompleted (st : state) : state * outcome :=
  saveTodos (set_todos (List.filter (λ t, negb (completed t)) (todos st)) st).

(** [setFilter(filter)] *)
Definition setFilter (f : jsstr) (st : state) : state * outcome := (set_filter f st, Returned).

(** The computed properties. *)
Definition filteredTodos (st : state) : list todo :=
  if bool_decide (filter st = filter_active) then List.filter (λ t, negb (completed t)) (todos st)
  else if bool_decide (filter st = filter_completed) then List.filter completed (todos st)
  else todos st.

Definition activeTodoCount (st : state) : nat := length (List.filter (λ t, negb (completed t)) (todos st)).
Definition completedTodoCount (st : state) : nat := length (List.filter completed (todos st)).

(** The calls the component receives, and their dispatch to the
    methods. *)
Inductive msg :=
| MsgAdd (now : Z)
| MsgToggle (i : Z)
| MsgDelete (i : Z)
| MsgClearCompleted
| MsgSetFilter (f : jsstr).

Definition handle (m : msg) (st : state) : state * outcome :=
  match m with
  | MsgAdd now => addTodo now st
  | MsgToggle i => toggleTodo i st
  | MsgDelete i => deleteTodo i st
  | MsgClearCompleted => clearCompleted st
  | MsgSetFilter f => setFilter f st
  end.
End TodoList.

Arguments state : clear implicits.

(** Case analysis on a message: unfold [handle] and the method, and split
    on the guard of [addTodo] and the lookup of [toggleTodo]. *)
Ltac handle_cases m :=
  destruct m as [now|i|i| |f]; cbn [handle];
  [ unfold addTodo; destruct (truthy (trim (newTodo _))) eqn:Hguard
  | unfold toggleTodo; destruct (list_find _ (todos _)) as [[k t]|] eqn:Hfind
  | unfold deleteTodo | unfold clearCompleted | unfold setFilter ].

(** * Theorems *)

Section TodoListProofs.
Context {S : Type} `{WebStorage S} `{!WebStorageLaws S}.
Implicit Types (st : state S) (l : list todo).

(** The side conditions of a message: [Date.now()] is a time value. *)
Definition msg_ok (m : msg) : Prop :=
  match m with MsgAdd now => time_value_ok now = true | _ => True end.

(** The clock is strictly ahead of every id of the list. *)
Definition msg_fresh (m : msg) (l : list todo) : Prop :=
  match m with MsgAdd now => Forall (λ t, (id t < now)%Z) l | _ => True end.

(** The ids a message may create. *)
Definition new_ids (m : msg) : list Z := match m with MsgAdd now => [now] | _ => [] end.

(** The stored text hydrates to the in-memory list. *)
Definition synced st : Prop := hydrate (getItem (storage st) storage_key) = Hydrated (todos st).

(** Every task is representable, and the input is a string of code
    units. *)
Definition wf st : Prop := Forall (λ t, todo_ok t = true) (todos st) ∧ jsstr_ok (newTodo st).

(** Whether a call reaches [saveTodos]: [addTodo] past its guard,
    [toggleTodo] when [find] finds the id, [deleteTodo] and
    [clearCompleted] always, [setFilter] never. *)
Definition writes (m : msg) st : bool :=
  match m with
  | MsgAdd _ => truthy (trim (newTodo st))
  | MsgToggle i => match list_find (λ t, id t = i) (todos st) with Some _ => true | None => false end
  | MsgDelete _ | MsgClearCompleted => true
  | MsgSetFilter _ => false
  end.

Lemma saveTodos_fields st :
  todos (saveTodos st).1 = todos st ∧ newTodo (saveTodos st).1 = newTodo st ∧
  filter (saveTodos st).1 = filter st.
Proof. unfold saveTodos. by destruct (setItem _ _ _). Qed.

Lemma saveTodos_threw st e : (saveTodos st).2 = Threw e → (saveTodos st).1 = st.
Proof. unfold saveTodos. by destruct (setItem _ _ _). Qed.

Lemma saveTodos_synced st :
  forallb todo_ok (todos st) = true → (saveTodos st).2 = Returned → synced (saveTodos st).1.
Proof.
  intros Hok. unfold saveTodos, synced. destruct (setItem _ _ _) as [ls|] eqn:E; [|done].
  intros _. simpl. erewrite getItem_setItem_eq by exact E. by apply hydrate_serialize.
Qed.

Lemma saveTodos_todos st : todos (saveTodos st).1 = todos st.
Proof. apply saveTodos_fields. Qed.

Lemma saveTodos_newTodo st : newTodo (saveTodos st).1 = newTodo st.
Proof. apply saveTodos_fields. Qed.

(** *** [addTodo] *)

Lemma addTodo_todos now st :
  truthy (trim (newTodo st)) = true →
  todos (addTodo now st).1 = todos st ++ [mk_todo now (newTodo st) false] ∧
  newTodo (addTodo now st).1 = [].
Proof. intros Ht. unfold addTodo. rewrite Ht. by rewrite saveTodos_todos, saveTodos_newTodo. Qed.

Lemma addTodo_blank now st : truthy (trim (newTodo st)) = false → addTodo now st = (st, Returned).
Proof. intros Ht. unfold addTodo. by rewrite Ht. Qed.

(** *** [toggleTodo] *)

Lemma toggleTodo_found i st k t :
  list_find (λ t, id t = i) (todos st) = Some (k, t) →
  todos (toggleTodo i st).1 = <[k := flip_completed t]> (todos st).
Proof. intros E. unfold toggleTodo. rewrite E. apply saveTodos_todos. Qed.

Lemma toggleTodo_not_found i st :
  list_find (λ t, id t = i) (todos st) = None → toggleTodo i st = (st, Returned).
Proof. intros E. unfold toggleTodo. by rewrite E. Qed.

(** *** [deleteTodo] and [clearCompleted] *)

Lemma deleteTodo_todos i st :
  todos (deleteTodo i st).1 = List.filter (λ t, negb (Z.eqb (id t) i)) (todos st).
Proof. apply saveTodos_todos. Qed.

Lemma clearCompleted_todos st :
  todos (clearCompleted st).1 = List.filter (λ t, negb (completed t)) (todos st).
Proof. apply saveTodos_todos. Qed.

Lemma filter_delete_unique i l k t :
  NoDup (map id l) → l !! k = Some t → id t = i →
  List.filter (λ x, negb (Z.eqb (id x) i)) l = delete k l.
Proof.
  revert k. induction l as [|x l IH]; intros k Hnd Hk Hi; [done|].
  simpl in Hnd. apply NoDup_cons in Hnd as [Hx Hnd]. destruct k as [|k]; simpl in Hk |- *.
  - simplify_eq. rewrite Z.eqb_refl. simpl. apply forallb_filter_id, forallb_forall.
    intros y Hy. apply negb_true_iff, Z.eqb_neq. intros Hyx. apply Hx.
    apply list_elem_of_In, in_map_iff. eauto.
  - assert (id x ≠ i).
    { intros <-. apply Hx. apply list_elem_of_In, in_map_iff. exists t. split; [done|].
      by eapply list_elem_of_In, list_elem_of_lookup_2. }
    destruct (Z.eqb_spec (id x) i); [done|]. simpl. f_equal. by apply IH.
Qed.

Lemma filteredTodos_sublist st : filteredTodos st `sublist_of` todos st.
Proof. unfold filteredTodos. repeat case_bool; auto using filter_sublist. Qed.

(** ** Functional behaviour of the methods *)

(** C7: [addTodo] with a non-blank input appends one task, with id
    [Date.now()], the input text as typed (not trimmed) and [completed =
    false], at the end of [todos], and clears the input; the list and the
    input change even when the save then throws. *)
Theorem addTodo_appends now st :
  truthy (trim (newTodo st)) = true →
  todos (addTodo now st).1 = todos st ++ [mk_todo now (newTodo st) false] ∧
  newTodo (addTodo now st).1 = [].
Proof. apply addTodo_todos. Qed.

(** C8: an input that is empty or all whitespace makes [addTodo] a no-op:
    the state is unchanged and nothing is written. *)
Theorem addTodo_whitespace_noop now st :
  Forall (λ c, is_trim_space c = true) (newTodo st) → addTodo now st = (st, Returned).
Proof. intros Hws. apply addTodo_blank. by rewrite (proj2 (trim_nil_iff _) Hws). Qed.

(** C9: [toggleTodo i] flips the [completed] flag of the first task whose
    id is [i] (the one no earlier task shares its id with) and changes no
    other position of the list. *)
Theorem toggleTodo_flips_first i st j :
  todos (toggleTodo i st).1 !! j =
  (λ t, if bool_decide (id t = i ∧ Forall (λ y, id y ≠ i) (take j (todos st)))
        then flip_completed t else t) <$> todos st !! j.
Proof.
  destruct (list_find (λ t, id t = i) (todos st)) as [[k t]|] eqn:E.
  - rewrite (toggleTodo_found _ _ k t E).
    pose proof E as (Hk & Hi & Hbefore)%list_find_Some.
    destruct (decide (j = k)) as [->|Hjk].
    + rewrite list_lookup_insert_eq by eauto using lookup_lt_Some. rewrite Hk. simpl.
      rewrite bool_decide_true; [done|]. split; [done|].
      apply Forall_lookup. intros j' y [Hy Hj']%lookup_take_Some. eauto.
    + rewrite list_lookup_insert_ne by done. destruct (todos st !! j) as [y|] eqn:Ej; [|done].
      simpl. rewrite bool_decide_false; [done|]. intros [Hy Hfirst].
      destruct (decide (j < k)%nat); [by eapply Hbefore|].
      apply (proj1 (Forall_lookup _ _) Hfirst k t); [|done].
      apply lookup_take_Some. split; [done|lia].
  - rewrite toggleTodo_not_found by done. destruct (todos st !! j) as [y|] eqn:Ej; [|done].
    simpl. rewrite bool_decide_false; [done|]. intros [Hy _].
    apply list_find_None in E. eapply (proj1 (Forall_lookup _ _)) in E; [|exact Ej]. done.
Qed.

(** C10: with unique ids, [deleteTodo i] removes exactly the task with id
    [i] and keeps every other task, in order. *)
Theorem deleteTodo_removes_exactly i st k t :
  NoDup (map id (todos st)) → todos st !! k = Some t → id t = i →
  todos (deleteTodo i st).1 = delete k (todos st).
Proof. intros. rewrite deleteTodo_todos. by eapply filter_delete_unique. Qed.

(** C11: deleting an id that no task has leaves the list unchanged (the
    list is still written to storage). *)
Theorem deleteTodo_absent i st :
  Forall (λ t, id t ≠ i) (todos st) → todos (deleteTodo i st).1 = todos st.
Proof.
  intros Hall. rewrite deleteTodo_todos. apply forallb_filter_id, forallb_forall.
  intros x Hx. apply negb_true_iff, Z.eqb_neq.
  by apply (proj1 (Forall_forall _ _) Hall), list_elem_of_In.
Qed.

(** C12: after [clearCompleted] no task is completed, and the active
    tasks are exactly those before, in their order. *)
Theorem clearCompleted_spec st :
  completedTodoCount (clearCompleted st).1 = 0%nat ∧
  todos (clearCompleted st).1 = List.filter (λ t, negb (completed t)) (todos st) ∧
  activeTodoCount (clearCompleted st).1 = activeTodoCount st.
Proof.
  unfold completedTodoCount, activeTodoCount. rewrite clearCompleted_todos.
  split_and!; [|done|by rewrite filter_idem].
  rewrite filter_filter_and, filter_all_false; [done|]. intros x _. by destruct (completed x).
Qed.

Lemma counts_sum st : (activeTodoCount st + completedTodoCount st)%nat = length (todos st).
Proof.
  unfold activeTodoCount, completedTodoCount. pose proof (filter_length completed (todos st)). lia.
Qed.

End TodoListProofs.

Section TodoListInvariants.
Context {S : Type} `{WebStorage S} `{!WebStorageLaws S}.
Implicit Types (st : state S) (l : list todo).

Lemma todo_ok_new now s :
  time_value_ok now = true → jsstr_ok s → todo_ok (mk_todo now s false) = true.
Proof.
  intros Ht Hs. unfold todo_ok. simpl. apply andb_true_iff. split.
  - apply bool_decide_eq_true. by apply time_value_safe.
  - by apply Forall_forallb_iff.
Qed.

Lemma todo_ok_flip t : todo_ok (flip_completed t) = todo_ok t.
Proof. done. Qed.

Lemma tasks_ok_toggle l k t :
  Forall (λ t, todo_ok t = true) l → l !! k = Some t →
  Forall (λ t, todo_ok t = true) (<[k := flip_completed t]> l).
Proof.
  intros Hl Hk. apply Forall_insert; [done|]. rewrite todo_ok_flip.
  by apply (proj1 (Forall_lookup _ _) Hl k t).
Qed.

Lemma wf_handle m st : wf st → msg_ok m → wf (handle m st).1.
Proof.
  intros [Hl Hs] Hm. unfold wf. handle_cases m; rewrite ?saveTodos_todos, ?saveTodos_newTodo; simpl.
  all: split; [|first [done|constructor]]; try done.
  - apply Forall_app. split; [done|]. constructor; [by apply todo_ok_new|constructor].
  - apply list_find_Some in Hfind as (Hk & _). by apply tasks_ok_toggle.
  - by apply Forall_list_filter.
  - by apply Forall_list_filter.
Qed.

Lemma synced_handle m st :
  wf st → msg_ok m → synced st → (handle m st).2 = Returned → synced (handle m st).1.
Proof.
  intros Hwf Hm Hsync Hret.
  pose proof (wf_handle m st Hwf Hm) as [Hl' _]. revert Hret Hl'.
  handle_cases m; intros Hret Hl'; rewrite ?saveTodos_todos in Hl';
    try (by apply saveTodos_synced; [apply Forall_forallb_iff|]); done.
Qed.

Lemma map_id_toggle l k t :
  l !! k = Some t → map id (<[k := flip_completed t]> l) = map id l.
Proof.
  revert k. induction l as [|x l IH]; intros [|k] Hk; simpl in *; simplify_eq; [done|].
  by rewrite IH.
Qed.

Lemma ids_unique_handle m st :
  NoDup (map id (todos st)) → msg_fresh m (todos st) → NoDup (map id (todos (handle m st).1)).
Proof.
  intros Hnd Hfresh. handle_cases m; rewrite ?saveTodos_todos; simpl; try done.
  - rewrite map_app. apply NoDup_app. split_and!; [done| |apply NoDup_singleton].
    intros x Hx ->%list_elem_of_singleton. apply list_elem_of_In, in_map_iff in Hx as (t & Ht & Hin).
    apply list_elem_of_In in Hin. apply (proj1 (Forall_forall _ _) Hfresh) in Hin. simpl in Ht. lia.
  - apply list_find_Some in Hfind as (Hk & _). by rewrite map_id_toggle.
  - eapply sublist_NoDup; [exact Hnd|]. apply map_filter_sublist.
  - eapply sublist_NoDup; [exact Hnd|]. apply map_filter_sublist.
Qed.

(** C1: the storage-sync invariant.  If the stored text hydrates to the
    list before a handler and the handler returns normally, it hydrates to
    the list after it: every path that changes [todos] ends in a
    successful [saveTodos], and the paths that do not save change
    neither [todos] nor the storage. *)
Theorem handle_synced m st :
  wf st → msg_ok m → synced st → (handle m st).2 = Returned → synced (handle m st).1.
Proof. apply synced_handle. Qed.

(** C6: ids stay pairwise distinct under every handler, provided
    [Date.now()] is strictly greater than every id already in the list. *)
Theorem handle_ids_unique m st :
  NoDup (map id (todos st)) → msg_fresh m (todos st) → NoDup (map id (todos (handle m st).1)).
Proof. apply ids_unique_handle. Qed.

(** C14: no handler reorders the list: the ids after it are a
    subsequence of the ids before it followed by the id it creates. *)
Theorem handle_preserves_order m st :
  map id (todos (handle m st).1) `sublist_of` map id (todos st) ++ new_ids m.
Proof.
  handle_cases m; rewrite ?saveTodos_todos; simpl; rewrite ?app_nil_r.
  - by rewrite map_app.
  - by apply sublist_inserts_r.
  - apply list_find_Some in Hfind as (Hk & _). by rewrite map_id_toggle.
  - done.
  - apply map_filter_sublist.
  - apply map_filter_sublist.
  - done.
Qed.

(** C15: when [Date.now()] returns the id of a task already in the list
    (two additions within one millisecond, or a clock set back), adding a
    task makes two tasks share an id. *)
Theorem addTodo_same_ms_duplicates st t :
  In t (todos st) → truthy (trim (newTodo st)) = true →
  ¬ NoDup (map id (todos (addTodo (id t) st).1)).
Proof.
  intros Hin Hguard. rewrite (proj1 (addTodo_todos _ _ Hguard)), map_app. simpl.
  rewrite NoDup_app. intros (_ & Hdisj & _). apply (Hdisj (id t)).
  - apply list_elem_of_In, in_map_iff. eauto.
  - by apply list_elem_of_singleton.
Qed.

(** C16: a [QuotaExceededError] in the save of [addTodo] leaves the page
    out of sync with the storage: the new task is displayed, but the
    stored text still hydrates to the list without it, so a reload loses
    the task. *)
Theorem addTodo_quota_desync now st e :
  synced st → truthy (trim (newTodo st)) = true → (addTodo now st).2 = Threw e →
  ¬ synced (addTodo now st).1.
Proof.
  intros Hsync Hguard. unfold addTodo. rewrite Hguard. intros Hthrew.
  rewrite (saveTodos_threw _ _ Hthrew). unfold synced in *. simpl. rewrite Hsync.
  intros [= Heq]. apply (f_equal length) in Heq. rewrite length_app in Heq. simpl in Heq. lia.
Qed.

(** C17: a stored text that is not JSON makes [data()] throw the
    SyntaxError of [JSON.parse]: the page does not mount with an empty
    list. *)
Theorem data_parse_error ls s :
  getItem ls storage_key = Some s → s ≠ [] → JSON_parse s = None → data ls = MountThrew SyntaxError.
Proof.
  intros Hget Hs Hparse. unfold data, hydrate. rewrite Hget.
  destruct s as [|c s]; [done|]. simpl. by rewrite Hparse.
Qed.

(** C18: a storage without the key, or with the empty string under it,
    mounts the page with no task, an empty input and the filter 'all'. *)
Theorem data_missing_storage ls :
  getItem ls storage_key = None ∨ getItem ls storage_key = Some [] →
  data ls = Mounted (mk_state [] [] filter_all ls).
Proof. unfold data. intros [-> | ->]; by rewrite ?(proj1 hydrate_missing), ?(proj2 hydrate_missing). Qed.
(** C25: the write policy.  A call that returns has written the
    serialization of the resulting list under ['todos'] exactly when it
    reaches [saveTodos] (in particular [deleteTodo] of an absent id writes),
    and has left the storage untouched otherwise ([setFilter], a blank
    input, a toggle of an absent id). *)
Theorem handle_writes m st :
  (handle m st).2 = Returned →
  if writes m st then getItem (storage (handle m st).1) storage_key = Some (serialize_todos (todos (handle m st).1))
  else storage (handle m st).1 = storage st.
Proof.
  unfold writes. handle_cases m; simpl; rewrite ?Hguard, ?Hfind; try done;
    unfold saveTodos; destruct (setItem _ _ _) as [ls|] eqn:E; simpl; try done;
    intros _; by eapply getItem_setItem_eq.
Qed.

End TodoListInvariants.

(** * Instances on concrete states

    The theorems above applied to pages on a browser storage
    ([local_storage]), with their side conditions evaluated. *)

Lemma handle_synced_witness :
  synced (handle (MsgAdd 1700000000000)
    (mk_state [] (js "buy milk") filter_all
       {| ls_items := {[storage_key := js "[]"]}; ls_quota := 1000 |})).1.
Proof.
  apply handle_synced.
  - split; [constructor|]. apply Forall_forallb_iff. reflexivity.
  - reflexivity.
  - vm_compute. reflexivity.
  - vm_compute. reflexivity.
Defined.

Lemma handle_ids_unique_witness :
  NoDup (map id (todos (handle (MsgAdd 3)
    (mk_state [mk_todo 1 (js "a") true; mk_todo 2 (js "b") false] (js "c") filter_all
       {| ls_items := ∅; ls_quota := 1000 |})).1)).
Proof.
  apply handle_ids_unique.
  - decide_by_eval.
  - unfold msg_fresh. decide_by_eval.
Defined.

(** The text is stored as typed, surrounding spaces included. *)
Lemma addTodo_appends_witness :
  let st := mk_state [] (js " buy milk ") filter_all {| ls_items := ∅; ls_quota := 1000 |} in
  todos (addTodo 5 st).1 = todos st ++ [mk_todo 5 (js " buy milk ") false] ∧ newTodo (addTodo 5 st).1 = [].
Proof. intros st. apply addTodo_appends. reflexivity. Defined.

Lemma addTodo_whitespace_noop_witness :
  let st := mk_state [] ([0x20; 0x3000; 0xA; 0xFEFF])%N filter_all {| ls_items := ∅; ls_quota := 1000 |} in
  addTodo 5 st = (st, Returned).
Proof. intros st. apply addTodo_whitespace_noop. apply Forall_forallb_iff. reflexivity. Defined.

Lemma deleteTodo_removes_exactly_witness :
  let st := mk_state [mk_todo 1 (js "a") true; mk_todo 2 (js "b") false; mk_todo 3 (js "c") false]
              [] filter_all {| ls_items := ∅; ls_quota := 1000 |} in
  todos (deleteTodo 2 st).1 = delete 1%nat (todos st).
Proof.
  intros st. apply (deleteTodo_removes_exactly _ _ 1 (mk_todo 2 (js "b") false)).
  - decide_by_eval.
  - reflexivity.
  - reflexivity.
Defined.

Lemma deleteTodo_absent_witness :
  let st := mk_state [mk_todo 1 (js "a") true] [] filter_all {| ls_items := ∅; ls_quota := 1000 |} in
  todos (deleteTodo 7 st).1 = todos st.
Proof. intros st. apply deleteTodo_absent. decide_by_eval. Defined.

(** Two additions within one millisecond. *)
Lemma addTodo_same_ms_duplicates_witness :
  ¬ NoDup (map id (todos (addTodo 1700000000000
    (mk_state [mk_todo 1700000000000 (js "a") false] (js "b") filter_all
       {| ls_items := ∅; ls_quota := 1000 |})).1)).
Proof. apply (addTodo_same_ms_duplicates _ (mk_todo 1700000000000 (js "a") false)); [by left|reflexivity]. Defined.

Lemma addTodo_quota_desync_witness :
  let st := mk_state [] (js "a") filter_all {| ls_items := ∅; ls_quota := 0 |} in
  ¬ synced (addTodo 5 st).1.
Proof. intros st. apply (addTodo_quota_desync 5 st QuotaExceededError); vm_compute; reflexivity. Defined.

(** A truncated text under the key. *)
Lemma data_parse_error_witness :
  data {| ls_items := {[storage_key := js "[{"]}; ls_quota := 1000 |} = MountThrew SyntaxError.
Proof.
  apply (data_parse_error _ (js "[{")); [vm_compute; reflexivity|discriminate|vm_compute; reflexivity].
Defined.

Lemma data_missing_storage_witness :
  let ls := {| ls_items := ∅; ls_quota := 1000 |} in
  data ls = Mounted (mk_state [] [] filter_all ls).
Proof. intros ls. apply data_missing_storage. left. reflexivity. Defined.

(** Deleting an absent id still writes the list. *)
Lemma handle_writes_witness :
  let st := mk_state [mk_todo 1 (js "a") false] [] filter_all {| ls_items := ∅; ls_quota := 1000 |} in
  getItem (storage (handle (MsgDelete 7) st).1) storage_key = Some (serialize_todos (todos (handle (MsgDelete 7) st).1)).
Proof. intros st. apply (handle_writes (MsgDelete 7) st). reflexivity. Defined.
