(* ===== verification/TodoSpec.v ===== *)
(** The abstract specification of the task store, and the refinement of
    [TodoList] to it.

    The specification (spec.md, section 4.1) describes the store as tasks
    identified by their id, each with a text and a completion flag, with
    four mutations (add, toggle, delete, clear completed) and a filtered
    view.  [Abstract] states exactly that, on a [gmap] from ids to
    [(text, completed)]: adding inserts a fresh id, toggling flips the flag
    of the id, deleting removes the id, clearing keeps the entries whose
    flag is false.  [abs] reads the component's array as such a map.

    Theorems: every handler of [TodoList] is simulated by one abstract step
    ([handle_refines]): the array after the handler reads as the abstract
    store after the corresponding operation, as long as ids are unique and
    the clock is fresh (the two hypotheses the code relies on and does not
    check, see [TodoList.addTodo_same_ms_duplicates]); and the computed
    [filteredTodos] is the abstract filtered view. *)

From S2P Require Import Prelude JsString Json Storage TodoModel TodoList.

Module Abstract.
Abbreviation store := (gmap Z (jsstr * bool)).

Inductive Filter := All | Active | Completed.

Definition add (now : Z) (txt : jsstr) (s : store) : store := <[now := (txt, false)]> s.
Definition toggle (i : Z) (s : store) : store := alter (λ p, (p.1, negb p.2)) i s.
Definition remove (i : Z) (s : store) : store := delete i s.
Definition clear (s : store) : store := base.filter (λ kv, kv.2.2 = false) s.

(** Which tasks a filter shows. *)
Definition shows (f : Filter) (t : todo) : bool :=
  match f with
  | All => true
  | Active => negb (completed t)
  | Completed => completed t
  end.
End Abstract.

(** The array read as the abstract store. *)
Definition abs (l : list todo) : Abstract.store :=
  list_to_map (map (λ t, (id t, (text t, completed t))) l).

(** The filter string read as the abstract filter: the [switch] of
    [filteredTodos] sends every string but 'active' and 'completed' to
    its [default] branch. *)
Definition filter_of (f : jsstr) : Abstract.Filter :=
  if bool_decide (f = filter_active) then Abstract.Active
  else if bool_decide (f = filter_completed) then Abstract.Completed
  else Abstract.All.

(** The abstract step of a message; [input] is the text field's content. *)
Definition abs_step (m : msg) (input : jsstr) (s : Abstract.store) : Abstract.store :=
  match m with
  | MsgAdd now => if truthy (trim input) then Abstract.add now input s else s
  | MsgToggle i => Abstract.toggle i s
  | MsgDelete i => Abstract.remove i s
  | MsgClearCompleted => Abstract.clear s
  | MsgSetFilter _ => s
  end.

(** * Theorems *)

Lemma abs_cons t l : abs (t :: l) = <[id t := (text t, completed t)]> (abs l).
Proof. done. Qed.

Lemma abs_lookup_None i l : i ∉ map id l → abs l !! i = None.
Proof.
  induction l as [|t l IH]; intros Hi; [done|]. rewrite abs_cons.
  simpl in Hi. rewrite elem_of_cons in Hi.
  rewrite lookup_insert_ne by naive_solver. apply IH. naive_solver.
Qed.

Lemma abs_toggle_found i l k t :
  list_find (λ t, id t = i) l = Some (k, t) → abs (<[k := flip_completed t]> l) = Abstract.toggle i (abs l).
Proof.
  revert k. induction l as [|x l IH]; intros k Hf; [done|]. unfold Abstract.toggle in *.
  simpl in Hf. case_decide as Hx.
  - simplify_eq/=. rewrite !abs_cons, alter_insert_eq. done.
  - destruct (list_find _ l) as [[k' t']|] eqn:E; simplify_eq/=.
    rewrite !abs_cons, IH by done. by rewrite alter_insert_ne.
Qed.

Lemma abs_toggle_absent i l :
  list_find (λ t, id t = i) l = None → abs l = Abstract.toggle i (abs l).
Proof.
  intros Hf. unfold Abstract.toggle. symmetry. apply alter_id', abs_lookup_None.
  intros (t & Ht & Hin)%list_elem_of_In%in_map_iff. apply list_find_None in Hf.
  eapply (proj1 (Forall_forall _ _) Hf); [by apply list_elem_of_In|done].
Qed.

Lemma abs_delete i l : abs (List.filter (λ t, negb (Z.eqb (id t) i)) l) = Abstract.remove i (abs l).
Proof.
  unfold Abstract.remove. induction l as [|x l IH]; [done|]. simpl.
  destruct (Z.eqb_spec (id x) i) as [<-|Hne]; simpl.
  - by rewrite IH, abs_cons, delete_insert_eq.
  - by rewrite !abs_cons, IH, delete_insert_ne.
Qed.

Lemma abs_clear l :
  NoDup (map id l) → abs (List.filter (λ t, negb (completed t)) l) = Abstract.clear (abs l).
Proof.
  unfold Abstract.clear. induction l as [|x l IH]; intros Hnd; [done|].
  simpl in Hnd. apply NoDup_cons in Hnd as [Hx Hnd]. simpl. rewrite abs_cons.
  destruct (completed x) eqn:Ec; simpl.
  - rewrite map_filter_insert_False by (simpl; congruence).
    rewrite delete_id by (by apply abs_lookup_None). by apply IH.
  - rewrite abs_cons, map_filter_insert_True by (simpl; congruence). by rewrite IH, Ec.
Qed.

Lemma abs_add now txt l :
  Forall (λ t, (id t < now)%Z) l → abs (l ++ [mk_todo now txt false]) = Abstract.add now txt (abs l).
Proof.
  unfold Abstract.add. induction l as [|x l IH]; intros Hf; [done|].
  apply Forall_cons in Hf as [Hx Hf]. simpl. rewrite !abs_cons, IH by done.
  apply insert_insert_ne. lia.
Qed.

(** C4: refinement.  With unique ids and a fresh clock, every handler of
    [TodoList] changes the array exactly as the corresponding operation of
    the abstract store changes the store it reads as: add inserts the new
    id with the input text and [false], toggle flips the flag of the id,
    delete removes the id, clear keeps the uncompleted entries, and
    [setFilter] leaves the store alone.  This holds whether the save at the
    end of the handler succeeds or throws. *)
Theorem handle_refines m st :
  NoDup (map id (todos st)) → msg_fresh m (todos st) →
  abs (todos (handle m st).1) = abs_step m (newTodo st) (abs (todos st)).
Proof.
  intros Hnd Hfresh. handle_cases m; rewrite ?saveTodos_todos; simpl; rewrite ?Hguard; try done.
  - by apply abs_add.
  - by apply abs_toggle_found.
  - by apply abs_toggle_absent.
  - apply abs_delete.
  - by apply abs_clear.
Qed.

(** C13: the computed [filteredTodos] is the filtered view of the
    specification: it keeps, in their order, exactly the tasks the current
    filter shows ('active': not completed; 'completed': completed; any
    other string: all). *)
Theorem filteredTodos_refines {S} (st : state S) :
  filteredTodos st = List.filter (Abstract.shows (filter_of (filter st))) (todos st) ∧
  filteredTodos st `sublist_of` todos st ∧
  (∀ t, In t (filteredTodos st) ↔ In t (todos st) ∧ Abstract.shows (filter_of (filter st)) t = true).
Proof.
  assert (Heq : filteredTodos st = List.filter (Abstract.shows (filter_of (filter st))) (todos st)).
  { unfold filteredTodos, filter_of. repeat case_bool_decide; [done|done|]. by rewrite filter_true. }
  split_and!; [done| |]; rewrite Heq; [apply filter_sublist|]. intros t. apply filter_In.
Qed.

Lemma handle_refines_witness :
  let st := mk_state [mk_todo 1 (js "a") true; mk_todo 2 (js "b") false] (js "c") filter_all
              {| ls_items := ∅; ls_quota := 1000 |} in
  abs (todos (handle (MsgToggle 2) st).1) = abs_step (MsgToggle 2) (newTodo st) (abs (todos st)).
Proof. intros st. apply handle_refines; [decide_by_eval|done]. Defined.
