(* ===== verification/TodoView.v ===== *)
(** The templates and the user's events: [TodoItem] (app.js lines 2-15)
    and the template of [TodoList] (lines 82-138).

    Rendering.  [render_item] is [TodoItem]'s template: the [completed]
    class, the text, and the label of the toggle button ('取消完成' when
    completed, '完成' otherwise).  [render] is [TodoList]'s template: the
    input bound to [newTodo], the three filter buttons with their counters
    and their [active] class, the clear button under
    [v-if="completedTodoCount > 0"], and either the list of
    [filteredTodos] or, under [v-else], the empty-list message chosen by
    the nested conditional on [filter].  Labels are their UTF-16 code units.

    Events.  [ui_event] lists what a user can do to the rendered page:
    type in the input ([v-model]), press Enter or click the add button
    ([addTodo]), click a filter button ([setFilter] with the button's
    literal), click the clear button (only when rendered), and click the
    toggle or delete button of the item at a position of the rendered list
    ([TodoItem] emits [todo.id], which the parent's listener passes to
    [toggleTodo] / [deleteTodo]).  [ui_dispatch] returns [None] for a click
    on something that is not rendered.

    Sessions.  [reach ls st threw] is the step relation of a page session
    started on storage [ls]: [data()] mounts the page, and each event is
    dispatched, with [Date.now()] a time value ahead of every id (the clock
    hypothesis of [TodoList.handle_ids_unique]); [threw] records whether a
    handler has thrown.  Rule induction gives the session invariants.
    [run] dispatches a list of events in order; [add_events] is typing
    texts and pressing Enter after each.

    Theorems: the rendered page's consistency (clear button, empty message,
    counters), the invariants of every reachable state (well-formed,
    unique ids, and in sync with the storage while no handler threw), and
    that a click on an item's toggle button flips that item when ids are
    unique, but flips another item when two items share an id; the
    counters equal the lengths of the filtered lists; and liveness: from
    every reachable state, a sequence of clicks empties the list. *)

From S2P Require Import Prelude JsString Json Storage TodoModel TodoList TodoSpec.

(** The template's labels. *)
Definition label_undo : jsstr := ([0x53D6; 0x6D88; 0x5B8C; 0x6210])%N.
Definition label_done : jsstr := ([0x5B8C; 0x6210])%N.
Definition msg_empty_all : jsstr := ([0x6C92; 0x6709; 0x5F85; 0x8FA6; 0x4E8B; 0x9805])%N.
Definition msg_empty_active : jsstr :=
  ([0x6C92; 0x6709; 0x9032; 0x884C; 0x4E2D; 0x7684; 0x5F85; 0x8FA6; 0x4E8B; 0x9805])%N.
Definition msg_empty_completed : jsstr :=
  ([0x6C92; 0x6709; 0x5DF2; 0x5B8C; 0x6210; 0x7684; 0x5F85; 0x8FA6; 0x4E8B; 0x9805])%N.

(** [TodoItem]'s template. *)
Record item_view := {
  iv_completed_class : bool;
  iv_text : jsstr;
  iv_toggle_label : jsstr;
}.

Definition render_item (t : todo) : item_view :=
  {| iv_completed_class := completed t;
     iv_text := text t;
     iv_toggle_label := if completed t then label_undo else label_done |}.

Inductive body := ItemList (items : list item_view) | EmptyMessage (m : jsstr).

(** [TodoList]'s template. *)
Record view := {
  v_input : jsstr;
  v_count_all : nat;
  v_count_active : nat;
  v_count_completed : nat;
  v_selected_all : bool;
  v_selected_active : bool;
  v_selected_completed : bool;
  v_clear_button : bool;
  v_body : body;
}.

Section TodoView.
Context {S : Type} `{WebStorage S}.
Implicit Types (st : state S).

Definition render st : view :=
  {| v_input := newTodo st;
     v_count_all := length (todos st);
     v_count_active := activeTodoCount st;
     v_count_completed := completedTodoCount st;
     v_selected_all := bool_decide (filter st = filter_all);
     v_selected_active := bool_decide (filter st = filter_active);
     v_selected_completed := bool_decide (filter st = filter_completed);
     v_clear_button := bool_decide (0 < completedTodoCount st)%nat;
     v_body :=
       if bool_decide (0 < length (filteredTodos st))%nat then ItemList (map render_item (filteredTodos st))
       else EmptyMessage (if bool_decide (filter st = filter_all) then msg_empty_all
                          else if bool_decide (filter st = filter_active) then msg_empty_active
                          else msg_empty_completed) |}.

Inductive filter_button := BtnAll | BtnActive | BtnCompleted.

Definition button_filter (b : filter_button) : jsstr :=
  match b with BtnAll => filter_all | BtnActive => filter_active | BtnCompleted => filter_completed end.

Inductive ui_event :=
| UiInput (s : jsstr)
| UiEnter (now : Z)
| UiAddClick (now : Z)
| UiFilterClick (b : filter_button)
| UiClearClick
| UiItemToggle (pos : nat)
| UiItemDelete (pos : nat).

Definition ui_dispatch (ev : ui_event) st : option (state S * outcome) :=
  match ev with
  | UiInput s => Some (set_newTodo s st, Returned)
  | UiEnter now | UiAddClick now => Some (addTodo now st)
  | UiFilterClick b => Some (setFilter (button_filter b) st)
  | UiClearClick => if bool_decide (0 < completedTodoCount st)%nat then Some (clearCompleted st) else None
  | UiItemToggle p => t ← filteredTodos st !! p; Some (toggleTodo (id t) st)
  | UiItemDelete p => t ← filteredTodos st !! p; Some (deleteTodo (id t) st)
  end.

(** What the environment guarantees of an event: typed text is a string
    of code units, and [Date.now()] is a time value ahead of every id. *)
Definition event_ok (ev : ui_event) st : Prop :=
  match ev with
  | UiInput s => jsstr_ok s
  | UiEnter now | UiAddClick now => time_value_ok now = true ∧ Forall (λ t, (id t < now)%Z) (todos st)
  | _ => True
  end.

Definition returned (o : outcome) : bool := match o with Returned => true | Threw _ => false end.

Inductive reach (ls : S) : state S → bool → Prop :=
| reach_mount st : data ls = Mounted st → reach ls st false
| reach_step st threw ev st' o :
    reach ls st threw → event_ok ev st → ui_dispatch ev st = Some (st', o) →
    reach ls st' (threw || negb (returned o)).
(** The storage a session starts on holds a list of representable tasks
    with distinct ids, or nothing at all. *)
Definition storage_ok (ls : S) : Prop :=
  ∀ l, hydrate (getItem ls storage_key) = Hydrated l →
       NoDup (map id l) ∧ Forall (λ t, todo_ok t = true) l.

(** A sequence of events, each dispatched to the state the previous one
    left; a click on something not rendered is ignored. *)
Fixpoint run (evs : list ui_event) st : state S :=
  match evs with
  | [] => st
  | ev :: evs' =>
      match ui_dispatch ev st with
      | Some (st', _) => run evs' st'
      | None => run evs' st
      end
  end.

(** Typing each text and pressing Enter, with the clock value [Date.now()]
    returns at that moment. *)
Definition add_events (l : list (jsstr * Z)) : list ui_event :=
  concat (map (λ p, [UiInput p.1; UiEnter p.2]) l).

(** Clicking the filter button 'all', then [n] times the delete button of
    the first item shown. *)
Definition delete_all_events (n : nat) : list ui_event :=
  UiFilterClick BtnAll :: repeat (UiItemDelete 0) n.

(** The events whose environment condition [event_ok] is trivial: clicks. *)
Definition click_event (ev : ui_event) : bool :=
  match ev with UiInput _ | UiEnter _ | UiAddClick _ => false | _ => true end.
End TodoView.

(** * Theorems *)

Section TodoViewProofs.
Context {S : Type} `{WebStorage S} `{!WebStorageLaws S}.
Implicit Types (st : state S) (l : list todo).

(** Every dispatched event is an edit of the input or a call of a
    method, with the message's side conditions when the event's hold. *)
Lemma ui_dispatch_cases ev st r :
  ui_dispatch ev st = Some r →
  (∃ s, ev = UiInput s ∧ r = (set_newTodo s st, Returned)) ∨
  (∃ m, r = handle m st ∧ (event_ok ev st → msg_ok m ∧ msg_fresh m (todos st))).
Proof.
  destruct ev as [s|now|now|b| |p|p]; simpl; intros Hd.
  - left. simplify_eq. eauto.
  - right. exists (MsgAdd now). simplify_eq. split; [done|]. intros [? ?]. by split.
  - right. exists (MsgAdd now). simplify_eq. split; [done|]. intros [? ?]. by split.
  - right. exists (MsgSetFilter (button_filter b)). simplify_eq. done.
  - right. exists MsgClearCompleted. case_bool_decide; simplify_eq. done.
  - right. destruct (filteredTodos st !! p) as [t|]; simplify_eq/=. by exists (MsgToggle (id t)).
  - right. destruct (filteredTodos st !! p) as [t|]; simplify_eq/=. by exists (MsgDelete (id t)).
Qed.

Lemma lookup_map_id l j : map id l !! j = id <$> l !! j.
Proof. revert j. induction l as [|x l IH]; intros [|j]; simpl; auto. Qed.

Lemma list_find_unique_id l k t :
  NoDup (map id l) → l !! k = Some t → list_find (λ x, id x = id t) l = Some (k, t).
Proof.
  intros Hnd Hk. apply list_find_Some. split_and!; [done|done|]. intros j y Hj Hjk Hid.
  assert (j = k); [|lia]. eapply NoDup_lookup; [exact Hnd| |].
  - rewrite lookup_map_id, Hj. simpl. by rewrite Hid.
  - by rewrite lookup_map_id, Hk.
Qed.

(** C5: the session invariant, by rule induction on [reach]: every state
    a session reaches has representable tasks and a string input, its
    task ids are pairwise distinct, and, as long as no handler has
    thrown, the stored text hydrates to exactly the displayed list (a
    reload shows the same tasks). *)
Theorem reach_invariant ls st threw :
  storage_ok ls → reach ls st threw →
  wf st ∧ NoDup (map id (todos st)) ∧ (threw = false → synced st).
Proof.
  intros Hls. induction 1 as [st Hd|st threw ev st' o Hr IH Hok Hd].
  - unfold data in Hd. destruct (hydrate _) as [l| |] eqn:E; simplify_eq.
    destruct (Hls l E) as [Hnd Hl]. split_and!; [split; [done|constructor]|done|done].
  - destruct IH as (Hwf & Hnd & Hsync).
    destruct (ui_dispatch_cases _ _ _ Hd) as [(s & -> & Hr')|(m & Hr' & Hm)]; simplify_eq/=.
    + split_and!; [split; [apply Hwf|done]|done|]. intros Ht. apply Hsync. by destruct threw.
    + destruct (Hm Hok) as [Hmok Hfresh].
      assert (st' = (handle m st).1 ∧ o = (handle m st).2) as [-> ->] by (by rewrite <- Hr').
      split_and!; [by apply wf_handle|by apply ids_unique_handle|].
      intros Ht. apply orb_false_iff in Ht as [-> Ho].
      apply synced_handle; auto. by destruct (handle m st).2.
Qed.

(** C19: with distinct ids, clicking the toggle button of the item shown
    at position [p] flips exactly that task, at its place in [todos]. *)
Theorem item_toggle_flips_clicked st p t :
  NoDup (map id (todos st)) → filteredTodos st !! p = Some t →
  ∃ k, todos st !! k = Some t ∧ ui_dispatch (UiItemToggle p) st = Some (toggleTodo (id t) st) ∧
       todos (toggleTodo (id t) st).1 = <[k := flip_completed t]> (todos st).
Proof.
  intros Hnd Hp. assert (Hin : t ∈ todos st).
  { eapply elem_of_sublist; [|apply filteredTodos_sublist]. by eapply list_elem_of_lookup_2. }
  apply list_elem_of_lookup in Hin as [k Hk]. exists k. split_and!; [done|by simpl; rewrite Hp|].
  apply toggleTodo_found. by apply list_find_unique_id.
Qed.

(** C20: when two tasks share an id (two additions in one millisecond),
    clicking the toggle button of the second flips the first one and
    leaves the clicked one as it was. *)
Theorem item_toggle_duplicate_flips_other st a b p :
  todos st !! 0%nat = Some a → todos st !! 1%nat = Some b → id a = id b →
  filteredTodos st !! p = Some b →
  ∃ st' o, ui_dispatch (UiItemToggle p) st = Some (st', o) ∧
           todos st' !! 0%nat = Some (flip_completed a) ∧ todos st' !! 1%nat = Some b.
Proof.
  intros Ha Hb Hid Hp. exists (toggleTodo (id b) st).1, (toggleTodo (id b) st).2.
  split; [cbn [ui_dispatch]; rewrite Hp; simpl; by rewrite <- surjective_pairing|].
  rewrite (toggleTodo_found _ _ 0 a).
  - rewrite list_lookup_insert_eq by eauto using lookup_lt_Some.
    by rewrite list_lookup_insert_ne.
  - apply list_find_Some. split_and!; [done|done|]. intros; lia.
Qed.

(** C21: the rendered page is consistent: the clear button is shown
    exactly when some task is completed, the empty-list message is shown
    exactly when the filtered list is empty, and the three counters
    satisfy all = active + completed. *)
Theorem render_consistent st :
  (v_clear_button (render st) = true ↔ ∃ t, In t (todos st) ∧ completed t = true) ∧
  ((∃ m, v_body (render st) = EmptyMessage m) ↔ filteredTodos st = []) ∧
  v_count_all (render st) = (v_count_active (render st) + v_count_completed (render st))%nat.
Proof.
  split_and!; simpl.
  - rewrite bool_decide_eq_true. unfold completedTodoCount. split.
    + intros Hlt. destruct (List.filter completed (todos st)) as [|t l'] eqn:E; simpl in Hlt; [lia|].
      exists t. apply filter_In. rewrite E. by left.
    + intros (t & Hin & Hc). assert (In t (List.filter completed (todos st))) by (by apply filter_In).
      destruct (List.filter completed (todos st)); simpl in *; [done|lia].
  - case_bool_decide as Hlt.
    + split; [by intros [m ?]|]. intros E. rewrite E in Hlt. simpl in Hlt. lia.
    + split; [|eauto]. intros _. destruct (filteredTodos st); simpl in *; [done|lia].
  - symmetry. apply counts_sum.
Qed.
(** C23: [setFilter] accepts any string.  Under a filter that is none
    of 'all', 'active' and 'completed', [filteredTodos] falls to the
    [default] branch and shows every task, no filter button is marked
    active, and an empty list shows the message of the 'completed'
    filter. *)
Theorem render_unknown_filter st :
  filter st ≠ filter_all → filter st ≠ filter_active → filter st ≠ filter_completed →
  filteredTodos st = todos st ∧
  v_selected_all (render st) = false ∧ v_selected_active (render st) = false ∧
  v_selected_completed (render st) = false ∧
  (todos st = [] → v_body (render st) = EmptyMessage msg_empty_completed).
Proof.
  intros Ha Hac Hc. assert (Hf : filteredTodos st = todos st).
  { unfold filteredTodos. by rewrite !bool_decide_false. }
  simpl. rewrite Hf, !bool_decide_false by done. split_and!; try done.
  intros ->. done.
Qed.
Lemma run_add_events_todos (inputs : list (jsstr * Z)) st :
  todos (run (add_events inputs) st) =
  todos st ++ map (λ p, mk_todo p.2 p.1 false) (List.filter (λ p, truthy (trim p.1)) inputs).
Proof.
  revert st. induction inputs as [|[s now] inputs IH]; intros st; simpl; [by rewrite app_nil_r|].
  destruct (addTodo now (set_newTodo s st)) as [st' o] eqn:E. rewrite IH.
  destruct (truthy (trim s)) eqn:Ht; simpl.
  - pose proof (addTodo_todos now (set_newTodo s st) Ht) as [Hl _].
    rewrite E in Hl. simpl in Hl. by rewrite Hl, <- app_assoc.
  - rewrite addTodo_blank in E by done. by simplify_eq.
Qed.

(** C24: typing texts and pressing Enter after each appends, in order, one
    task per text that is not blank after trimming (with the untrimmed text,
    the clock value of its Enter and [completed = false]) and nothing for
    the blank ones, whatever the storage does. *)
Theorem run_add_events (inputs : list (jsstr * Z)) st :
  todos (run (add_events inputs) st) =
  todos st ++ map (λ p, mk_todo p.2 p.1 false) (List.filter (λ p, truthy (trim p.1)) inputs).
Proof. apply run_add_events_todos. Qed.

(** C33: ids stay distinct across a sequence of additions typed on the
    page, when the clock values of the Enter presses strictly increase and
    exceed every id already in the list: this is the spec's "ids are
    pairwise distinct" for sequences of [addTask], under the clock
    hypothesis that [Date.now()] does not guarantee (see C18). *)
Theorem run_add_events_ids (inputs : list (jsstr * Z)) st :
  NoDup (map id (todos st)) →
  Forall (λ t, Forall (λ p, (id t < p.2)%Z) inputs) (todos st) →
  StronglySorted (λ p q, (p.2 < q.2)%Z) inputs →
  NoDup (map id (todos (run (add_events inputs) st))).
Proof.
  intros Hnd Hold Hsort. rewrite run_add_events_todos, map_app, map_map. simpl.
  apply NoDup_app. split_and!; [done| |].
  - intros x (t & -> & Ht)%list_elem_of_fmap_1 Hx.
    apply list_elem_of_In, in_map_iff in Hx as (p & Hp & Hin%filter_In).
    rewrite Forall_forall in Hold.
    specialize (Hold t Ht). rewrite Forall_forall in Hold.
    pose proof (Hold p (proj2 (list_elem_of_In _ _) (proj1 Hin))). lia.
  - eapply sublist_NoDup; [|apply (map_filter_sublist (λ p, p.2))].
    apply (StronglySorted_map_NoDup (λ p, p.2) Z.lt). done.
Qed.

(** C31: the counters of the filter bar are the lengths of the lists the
    filters show: the number on each button is the number of items the
    list holds after a click on it. *)
Theorem counters_match_filters st :
  v_count_all (render st) = length (filteredTodos (set_filter filter_all st)) ∧
  v_count_active (render st) = length (filteredTodos (set_filter filter_active st)) ∧
  v_count_completed (render st) = length (filteredTodos (set_filter filter_completed st)).
Proof. unfold filteredTodos. simpl. by split_and!. Qed.

(** ** Liveness: every reachable page can be emptied *)

Lemma click_event_ok ev st : click_event ev = true → event_ok ev st.
Proof. by destruct ev. Qed.

(** A session stays a session along a sequence of clicks. *)
Lemma reach_run_clicks ls evs st threw :
  reach ls st threw → Forall (λ ev, click_event ev = true) evs →
  ∃ threw', reach ls (run evs st) threw'.
Proof.
  revert st threw. induction evs as [|ev evs IH]; intros st threw Hr Hc; simpl; [eauto|].
  apply Forall_cons in Hc as [Hev Hc].
  destruct (ui_dispatch ev st) as [[st' o]|] eqn:Hd; [|eauto].
  eapply IH; [|done]. eapply reach_step; [done|by apply click_event_ok|done].
Qed.

(** A click on the delete button of the first item of the unfiltered list
    removes at least that item and keeps the filter. *)
Lemma delete_first_shrinks st t l :
  filter st = filter_all → todos st = t :: l →
  ∃ st' o, ui_dispatch (UiItemDelete 0) st = Some (st', o) ∧
           filter st' = filter_all ∧ (length (todos st') ≤ length l)%nat.
Proof.
  intros Hf Ht. assert (Hft : filteredTodos st = todos st).
  { unfold filteredTodos. rewrite Hf. by rewrite !bool_decide_false. }
  eexists _, _. split; [simpl; rewrite Hft, Ht; simpl; by rewrite <- surjective_pairing|].
  split; [unfold deleteTodo; by rewrite (proj2 (proj2 (saveTodos_fields _)))|].
  rewrite deleteTodo_todos, Ht. simpl. rewrite Z.eqb_refl. simpl. apply filter_length_le.
Qed.

Lemma run_delete_first_empties n st :
  filter st = filter_all → (length (todos st) ≤ n)%nat →
  todos (run (repeat (UiItemDelete 0) n) st) = [].
Proof.
  revert st. induction n as [|n IH]; intros st Hf Hn; cbn [run repeat].
  { by destruct (todos st); [|simpl in Hn; lia]. }
  destruct (todos st) as [|t l] eqn:Ht.
  - assert (Hnone : ui_dispatch (UiItemDelete 0) st = None).
    { simpl. unfold filteredTodos. rewrite Hf, !bool_decide_false, Ht by done. done. }
    rewrite Hnone. apply IH; [done|]. rewrite Ht. simpl. lia.
  - destruct (delete_first_shrinks st t l Hf Ht) as (st' & o & Hd & Hf' & Hlen).
    rewrite Hd. apply IH; [done|]. simpl in Hn. lia.
Qed.

(** C26: liveness.  From every state a session reaches, the user can empty
    the list: clicking 'all' and then the first delete button as many times
    as there are tasks is a continuation of the session, and it ends with
    no task, whether or not the saves on the way succeed. *)
Theorem reach_can_empty ls st threw :
  reach ls st threw →
  ∃ threw', reach ls (run (delete_all_events (length (todos st))) st) threw' ∧
            todos (run (delete_all_events (length (todos st))) st) = [].
Proof.
  intros Hr. destruct (reach_run_clicks ls (delete_all_events (length (todos st))) st threw Hr)
    as [threw' Hr'].
  { constructor; [done|]. apply Forall_forall. intros ev Hev%list_elem_of_In%repeat_spec. by subst. }
  exists threw'. split; [done|]. simpl. apply run_delete_first_empties; [done|]. simpl. lia.
Qed.

End TodoViewProofs.

(** A session on an empty storage: mount, type "a", press Enter. *)
Lemma reach_invariant_witness :
  let ls := {| ls_items := ∅; ls_quota := 1000 |} in
  let st0 := mk_state [] [] filter_all ls in
  let st := (addTodo 5 (set_newTodo (js "a") st0)).1 in
  wf st ∧ NoDup (map id (todos st)) ∧ (false = false → synced st).
Proof.
  intros ls st0 st. apply (reach_invariant ls).
  - intros l Hl. vm_compute in Hl. injection Hl as <-. split; constructor.
  - change (reach ls st ((false || negb (returned Returned)) || negb (returned (addTodo 5 (set_newTodo (js "a") st0)).2))).
    apply (reach_step ls (set_newTodo (js "a") st0) _ (UiEnter 5)).
    + apply (reach_step ls st0 false (UiInput (js "a"))).
      * apply reach_mount. vm_compute. reflexivity.
      * apply Forall_forallb_iff. reflexivity.
      * reflexivity.
    + split; [reflexivity|constructor].
    + reflexivity.
Defined.

Lemma item_toggle_flips_clicked_witness :
  let st := mk_state [mk_todo 1 (js "a") true; mk_todo 2 (js "b") false] [] filter_active
              {| ls_items := ∅; ls_quota := 1000 |} in
  ∃ k, todos st !! k = Some (mk_todo 2 (js "b") false) ∧
       ui_dispatch (UiItemToggle 0) st = Some (toggleTodo 2 st) ∧
       todos (toggleTodo 2 st).1 = <[k := flip_completed (mk_todo 2 (js "b") false)]> (todos st).
Proof.
  intros st. apply (item_toggle_flips_clicked st 0 (mk_todo 2 (js "b") false)).
  - decide_by_eval.
  - reflexivity.
Defined.

(** Two tasks added within one millisecond; the second is clicked. *)
Lemma item_toggle_duplicate_flips_other_witness :
  let a := mk_todo 1700000000000 (js "a") false in
  let b := mk_todo 1700000000000 (js "b") false in
  let st := mk_state [a; b] [] filter_all {| ls_items := ∅; ls_quota := 1000 |} in
  ∃ st' o, ui_dispatch (UiItemToggle 1) st = Some (st', o) ∧
           todos st' !! 0%nat = Some (flip_completed a) ∧ todos st' !! 1%nat = Some b.
Proof. intros a b st. by apply item_toggle_duplicate_flips_other. Defined.

(** The filter 'Active' with a capital letter. *)
Lemma render_unknown_filter_witness :
  let st := mk_state [] [] (js "Active") {| ls_items := ∅; ls_quota := 1000 |} in
  filteredTodos st = todos st ∧
  v_selected_all (render st) = false ∧ v_selected_active (render st) = false ∧
  v_selected_completed (render st) = false ∧
  (todos st = [] → v_body (render st) = EmptyMessage msg_empty_completed).
Proof. intros st. apply render_unknown_filter; discriminate. Defined.

Lemma run_add_events_witness :
  let st := mk_state [] [] filter_all {| ls_items := ∅; ls_quota := 1000 |} in
  todos (run (add_events [(js "buy milk", 1%Z); (js "  ", 2%Z); (js " walk ", 3%Z)]) st) =
  [mk_todo 1 (js "buy milk") false; mk_todo 3 (js " walk ") false].
Proof. intros st. rewrite run_add_events. reflexivity. Defined.

(** A page mounted on a storage holding two tasks. *)
Lemma reach_can_empty_witness :
  let ls := {| ls_items := {[storage_key := serialize_todos [mk_todo 1 (js "a") true; mk_todo 2 (js "b") false]]};
               ls_quota := 1000 |} in
  let st := mk_state [mk_todo 1 (js "a") true; mk_todo 2 (js "b") false] [] filter_all ls in
  ∃ threw', reach ls (run (delete_all_events (length (todos st))) st) threw' ∧
            todos (run (delete_all_events (length (todos st))) st) = [].
Proof.
  intros ls st. apply (reach_can_empty ls st false). apply reach_mount. vm_compute. reflexivity.
Defined.

Lemma run_add_events_ids_witness :
  let st := mk_state [mk_todo 1 (js "a") false] [] filter_all {| ls_items := ∅; ls_quota := 1000 |} in
  NoDup (map id (todos (run (add_events [(js "b", 2%Z); (js " ", 3%Z); (js "c", 5%Z)]) st))).
Proof.
  intros st. apply run_add_events_ids.
  - decide_by_eval.
  - repeat constructor; simpl; lia.
  - repeat constructor; simpl; lia.
Defined.
