(* ===== verification/App.v ===== *)
(** The application shell (app.js lines 141-156): the route table, the
    router with hash history, and the root application whose template is a
    single [<router-view>].

    - [routes] is the table of lines 142-144: one record, path ['/'],
      component [TodoList].
    - [hash_location] is how [createWebHashHistory()] (line 147) reads the
      current location: [location.hash] without its leading ['#'], with a
      ['/'] put in front when it does not start with one (an empty hash is
      ['/']).
    - [url_path] is the path part of that location (vue-router's
      [parseURL]): everything before the first ['?'] or ['#'].
    - [route_matches] is the matcher of a record (strict and sensitive
      off, [end] on): the record ['/'] compiles to the pattern [^/?$],
      which a path starting with ['/'] matches exactly when it is ['/'].
    - [router_resolve] takes the first record of the table that matches.
    - [app_mount] is [app.use(router); app.mount('#app')] (lines 152-156):
      the router resolves the initial location and [<router-view>] renders
      the matched component, whose [data()] runs on the storage; with no
      match it renders nothing.

    - [app] is the running application: what [<router-view>] shows and the
      storage area ([app_storage] reads it through the mounted page, whose
      handlers write it).  [hashchange] is a change of [location.hash]:
      the router resolves the new location; a location that still matches
      the record keeps the mounted instance, one that matches nothing
      unmounts it (its state is dropped), and coming back mounts a new
      instance whose [data()] reads the storage again.

    Theorems: which hashes show the task list ([app_mount_routes]), that
    the initial render on a valid storage is the first state of a page
    session ([app_mount_session]), and that leaving and coming back keeps
    the stored tasks but loses the typed text and the filter
    ([hashchange_away_back]). *)

From S2P Require Import Prelude JsString Json Storage TodoModel TodoList TodoView.

Definition ch_hash : N := 0x23.
Definition ch_slash : N := 0x2F.
Definition ch_question : N := 0x3F.

Inductive page := PageTodoList.

Record route := mk_route { route_path : jsstr; route_component : page }.

Definition routes : list route := [mk_route (js "/") PageTodoList].

(** [createCurrentLocation] of [createWebHashHistory]: [hash.slice(1)],
    with ['/'] prepended when it does not start with ['/']. *)
Definition hash_location (hash : jsstr) : jsstr :=
  let p := drop 1 hash in
  match p with
  | c :: _ => if bool_decide (c = ch_slash) then p else ch_slash :: p
  | [] => [ch_slash]
  end.

(** [parseURL]: the path ends at the first ['?'] or ['#']. *)
Definition url_path (loc : jsstr) : jsstr :=
  take_while (λ c, bool_decide (c ≠ ch_question ∧ c ≠ ch_hash)) loc.

(** The compiled pattern of a record: a record ['/'] is [^/?$]; the table
    holds no other. *)
Definition route_matches (r : route) (p : jsstr) : bool :=
  bool_decide (p = route_path r) || bool_decide (p = []).

Definition router_resolve (loc : jsstr) : option page :=
  route_component <$> List.find (λ r, route_matches r (url_path loc)) routes.

Section App.
Context {S : Type} `{WebStorage S}.

Inductive app_view :=
| ShowsTodoList (m : mount_result (S:=S))
| ShowsNothing.

Definition app_mount (hash : jsstr) (ls : S) : app_view :=
  match router_resolve (hash_location hash) with
  | Some PageTodoList => ShowsTodoList (data ls)
  | None => ShowsNothing
  end.

(** The running application: what [<router-view>] shows, and the storage
    area, read through the mounted page when there is one (its handlers
    write it). *)
Record app := mk_app { app_ls : S; app_view_of : app_view }.

Definition app_storage (a : app) : S :=
  match app_view_of a with
  | ShowsTodoList (Mounted st) => storage st
  | _ => app_ls a
  end.

(** A change of [location.hash] (the hash history's [hashchange]
    listener): the router resolves the new location; when it still
    matches the record of [TodoList] and the page is shown, [<router-view>]
    keeps the same component instance; when it matches no record the page
    is unmounted and its state dropped; when it matches again a new
    instance is mounted, whose [data()] reads the storage. *)
Definition hashchange (hash : jsstr) (a : app) : app :=
  match router_resolve (hash_location hash), app_view_of a with
  | Some PageTodoList, ShowsTodoList _ => a
  | Some PageTodoList, ShowsNothing => mk_app (app_storage a) (ShowsTodoList (data (app_storage a)))
  | None, _ => mk_app (app_storage a) ShowsNothing
  end.

End App.

(** * Theorems *)

Section AppProofs.
Context {S : Type} `{WebStorage S}.

Lemma router_resolve_root loc : url_path loc = js "/" → router_resolve loc = Some PageTodoList.
Proof. unfold router_resolve. intros ->. done. Qed.

Lemma router_resolve_other loc :
  url_path loc ≠ js "/" → url_path loc ≠ [] → router_resolve loc = None.
Proof.
  unfold router_resolve, route_matches. intros H1 H2. simpl.
  by rewrite !bool_decide_false.
Qed.

Lemma hash_location_slash rest : hash_location (ch_hash :: ch_slash :: rest) = ch_slash :: rest.
Proof. done. Qed.

Lemma hash_location_other c rest :
  c ≠ ch_slash → hash_location (ch_hash :: c :: rest) = ch_slash :: c :: rest.
Proof. intros Hc. unfold hash_location. simpl. by rewrite bool_decide_false. Qed.

Lemma url_path_cons c rest :
  c ≠ ch_question → c ≠ ch_hash → url_path (c :: rest) = c :: url_path rest.
Proof. intros Hq Hh. unfold url_path. simpl. case_bool_decide; [done|naive_solver]. Qed.

Lemma url_path_delim rest :
  rest = [] ∨ (∃ c r, rest = c :: r ∧ (c = ch_question ∨ c = ch_hash)) → url_path rest = [].
Proof.
  intros [->|(c & r & -> & Hc)]; [done|]. unfold url_path. simpl.
  case_bool_decide; [naive_solver|done].
Qed.

Lemma slash_not_delim : ch_slash ≠ ch_question ∧ ch_slash ≠ ch_hash.
Proof. done. Qed.

(** C27: the routes.  The task list is shown for an empty hash, for ['#']
    and for ['#/'] followed by nothing, by a query or by a fragment; a
    hash whose path is anything else (['#/todos'], ['#todos']) matches no
    record and the page shows nothing: there is no catch-all route. *)
Theorem app_mount_routes (ls : S) :
  app_mount [] ls = ShowsTodoList (data ls) ∧
  app_mount [ch_hash] ls = ShowsTodoList (data ls) ∧
  (∀ rest, rest = [] ∨ (∃ c r, rest = c :: r ∧ (c = ch_question ∨ c = ch_hash)) →
     app_mount (ch_hash :: ch_slash :: rest) ls = ShowsTodoList (data ls)) ∧
  (∀ c rest, c ≠ ch_question → c ≠ ch_hash →
     app_mount (ch_hash :: ch_slash :: c :: rest) ls = ShowsNothing) ∧
  (∀ c rest, c ≠ ch_slash → c ≠ ch_question → c ≠ ch_hash →
     app_mount (ch_hash :: c :: rest) ls = ShowsNothing).
Proof.
  destruct slash_not_delim as [Hsq Hsh].
  unfold app_mount. split_and!; [done|done| | |].
  - intros rest Hr. rewrite hash_location_slash, router_resolve_root; [done|].
    rewrite url_path_cons by done. rewrite (url_path_delim rest Hr). done.
  - intros c rest Hq Hh. rewrite hash_location_slash, router_resolve_other; [done| |];
      rewrite !url_path_cons by done; done.
  - intros c rest Hs Hq Hh. rewrite hash_location_other by done.
    rewrite router_resolve_other; [done| |]; rewrite !url_path_cons by done; intros [=]; done.
Qed.

(** C28: the shell and the page compose.  Opening the application with no
    hash on a storage whose text hydrates to a list mounts [TodoList] with
    that list, an empty input and the filter 'all', and that state is the
    first state of a page session, from which the session theorems of
    [TodoView] apply. *)
Theorem app_mount_session (ls : S) l :
  hydrate (getItem ls storage_key) = Hydrated l →
  ∃ st, app_mount [] ls = ShowsTodoList (Mounted st) ∧
        todos st = l ∧ newTodo st = [] ∧ filter st = filter_all ∧ storage st = ls ∧ reach ls st false.
Proof.
  intros Hh. assert (Hd : data ls = Mounted (mk_state l [] filter_all ls)) by (unfold data; by rewrite Hh).
  exists (mk_state l [] filter_all ls). split_and!; try done.
  - unfold app_mount. simpl. by rewrite Hd.
  - by apply reach_mount.
Qed.

(** C32: navigating away and back remounts the page.  A hash that matches
    no route unmounts [TodoList], and coming back to ['#/'] mounts a new
    instance whose [data()] hydrates the storage: when the page was in
    sync, the tasks come back unchanged, but the text typed in the input
    and the selected filter are lost (reset to '' and 'all'). *)
Theorem hashchange_away_back (a : app) st other :
  app_view_of a = ShowsTodoList (Mounted st) → synced st →
  router_resolve (hash_location other) = None →
  app_view_of (hashchange other a) = ShowsNothing ∧
  ∃ st', app_view_of (hashchange (js "#/") (hashchange other a)) = ShowsTodoList (Mounted st') ∧
         todos st' = todos st ∧ newTodo st' = [] ∧ filter st' = filter_all ∧ storage st' = storage st.
Proof.
  intros Ha Hsync Hother.
  assert (Haway : hashchange other a = mk_app (storage st) ShowsNothing).
  { unfold hashchange, app_storage. by rewrite Hother, Ha. }
  rewrite Haway. split; [done|]. exists (mk_state (todos st) [] filter_all (storage st)).
  unfold hashchange, app_storage. simpl. unfold data. unfold synced in Hsync. by rewrite Hsync.
Qed.
End AppProofs.

Lemma app_mount_routes_witness :
  app_mount (js "#/todos") {| ls_items := ∅; ls_quota := 1000 |} = ShowsNothing ∧
  app_mount (js "#/?ref=home") {| ls_items := ∅; ls_quota := 1000 |} =
    ShowsTodoList (data {| ls_items := ∅; ls_quota := 1000 |}).
Proof.
  split.
  - apply (proj1 (proj2 (proj2 (proj2 (app_mount_routes _))))); done.
  - apply (proj1 (proj2 (proj2 (app_mount_routes _)))). right. by exists ch_question, (js "ref=home"); split; [|left].
Defined.

Lemma app_mount_session_witness :
  let ls := {| ls_items := {[storage_key := serialize_todos [mk_todo 1 (js "a") false]]}; ls_quota := 1000 |} in
  ∃ st, app_mount [] ls = ShowsTodoList (Mounted st) ∧
        todos st = [mk_todo 1 (js "a") false] ∧ newTodo st = [] ∧ filter st = filter_all ∧
        storage st = ls ∧ reach ls st false.
Proof. intros ls. apply app_mount_session. vm_compute. reflexivity. Defined.

(** Leaving for '#/about' with a typed text and the 'completed' filter. *)
Lemma hashchange_away_back_witness :
  let ls := {| ls_items := {[storage_key := serialize_todos [mk_todo 1 (js "a") true]]}; ls_quota := 1000 |} in
  let st := mk_state [mk_todo 1 (js "a") true] (js "draft") filter_completed ls in
  let a := mk_app ls (ShowsTodoList (Mounted st)) in
  app_view_of (hashchange (js "#/about") a) = ShowsNothing ∧
  ∃ st', app_view_of (hashchange (js "#/") (hashchange (js "#/about") a)) = ShowsTodoList (Mounted st') ∧
         todos st' = todos st ∧ newTodo st' = [] ∧ filter st' = filter_all ∧ storage st' = storage st.
Proof.
  intros ls st a. apply hashchange_away_back; [done| |].
  - unfold synced. vm_compute. reflexivity.
  - vm_compute. reflexivity.
Defined.
